(** * Tier, grace-period and cleanup policy of prospectflow

  A shallow embedding of
  - the subscription state resolver of the [useCurrentSubscription] hook
    ([fetchSubscriptionDetails]), and
  - the PL/pgSQL functions [daily_user_data_cleanup] and
    [delete_excess_records_for_user],
  followed by the properties the specification states about them. *)

From stdpp Require Import base decidable numbers list sorting strings.
From stdpp Require Import relations.

Local Open Scope Z_scope.

(** ** Time

  Instants are milliseconds since the epoch, as in a JavaScript [Date] and
  (up to the unit) a [timestamptz].  The database session runs in UTC.  The
  browser runs in a zone [tz] milliseconds ahead of UTC (behind, when
  negative); the offset is fixed, so a calendar day is 86,400,000 ms
  everywhere and daylight-saving shifts are left out. *)

Definition msPerDay : Z := 86400000.

(** The number of the calendar day an instant falls on, in the zone [tz]. *)
Definition local_day (tz t : Z) : Z := (t + tz) `div` msPerDay.

(** ** The part of date-fns the hook imports *)

Module DateFns.

(** A JavaScript [Date]: a time value, or the Invalid Date (time value NaN)
    that [new Date(s)] yields for an unparseable [s]. *)
Inductive JsDate : Type :=
| InvalidDate
| DateAt (ms : Z).

(** A JavaScript number as far as the hook needs it. *)
Inductive JsNumber : Type :=
| NaN
| Num (z : Z).

Global Instance JsDate_eq_dec : EqDecision JsDate.
Proof. solve_decision. Defined.
Global Instance JsNumber_eq_dec : EqDecision JsNumber.
Proof. solve_decision. Defined.

(** Midnight, in the zone [tz] of the browser, of the day of [d]. *)
Definition startOfDay (tz : Z) (d : JsDate) : JsDate :=
  match d with
  | InvalidDate => InvalidDate
  | DateAt t => DateAt (t - (t + tz) `mod` msPerDay)
  end.

Definition addDays (d : JsDate) (amount : Z) : JsDate :=
  match d with
  | InvalidDate => InvalidDate
  | DateAt t => DateAt (t + amount * msPerDay)
  end.

(** [isFuture d] is [+d > Date.now()]; a comparison with NaN is false. *)
Definition isFuture (now : Z) (d : JsDate) : bool :=
  match d with
  | InvalidDate => false
  | DateAt t => bool_decide (now < t)
  end.

(** Number of full days between two dates, truncated towards zero. *)
Definition differenceInDays (dateLeft dateRight : JsDate) : JsNumber :=
  match dateLeft, dateRight with
  | DateAt l, DateAt r => Num ((l - r) `quot` msPerDay)
  | _, _ => NaN
  end.

(** [x === 0] *)
Definition is_zero (x : JsNumber) : bool :=
  match x with
  | NaN => false
  | Num z => bool_decide (z = 0)
  end.

(** [Math.max(0, x)] *)
Definition max0 (x : JsNumber) : JsNumber :=
  match x with
  | NaN => NaN
  | Num z => Num (Z.max 0 z)
  end.

End DateFns.

(** ** Subscription state resolver (useCurrentSubscription) *)

Module Resolver.
Import DateFns.

Inductive SubscriptionTier : Type := free | premium.

Global Instance SubscriptionTier_eq_dec : EqDecision SubscriptionTier.
Proof. solve_decision. Defined.

Definition GRACE_PERIOD_DAYS : Z := 7.

(** The row [supabase ... .single()] hands back, after the hook has
    rebuilt its dates: [plan_expiry_date] is [None] when the column is null
    (or otherwise falsy) and [Some (new Date(column))] when it is not.  The
    tier and status columns are cast, not checked, so they stay strings. *)
Record UserSubscription : Type := {
  tier : string;
  status : string;
  plan_expiry_date : option JsDate;
}.

(** What the PostgREST call resolves to: [data], and [error] by its code. *)
Record Response : Type := {
  data : option UserSubscription;
  error : option string;
}.

(** The three values the hook publishes. *)
Record Resolved : Type := {
  effectiveTierForLimits : SubscriptionTier;
  isInGracePeriod : bool;
  daysLeftInGracePeriod : option JsNumber;
}.

Definition free_no_grace : Resolved :=
  {| effectiveTierForLimits := free;
     isInGracePeriod := false;
     daysLeftInGracePeriod := None |}.

(** The [if (data) ... else ...] block, lines 76-115. *)
Definition resolve (tz now : Z) (data : option UserSubscription) : Resolved :=
  match data with
  | Some sub =>
      if bool_decide (tier sub = "premium" ∧ status sub = "active") then
        match plan_expiry_date sub with
        | Some expiry =>
            if isFuture now (startOfDay tz expiry) then
              {| effectiveTierForLimits := premium;
                 isInGracePeriod := false;
                 daysLeftInGracePeriod := None |}
            else
              let gracePeriodEndDate :=
                addDays (startOfDay tz expiry) GRACE_PERIOD_DAYS in
              let today := startOfDay tz (DateAt now) in
              if isFuture now gracePeriodEndDate
                 || is_zero (differenceInDays gracePeriodEndDate today)
              then
                {| effectiveTierForLimits := free;
                   isInGracePeriod := true;
                   daysLeftInGracePeriod :=
                     Some (max0 (differenceInDays gracePeriodEndDate today)) |}
              else free_no_grace
        | None => free_no_grace
        end
      else free_no_grace
  | None => free_no_grace
  end.

(** The [try] block: a PostgREST error other than PGRST116 (no row) is
    thrown; otherwise the state is resolved from [data]. *)
Definition try_block (tz now : Z) (r : Response) : string + Resolved :=
  match error r with
  | Some code =>
      if bool_decide (code ≠ "PGRST116") then inl code
      else inr (resolve tz now (data r))
  | None => inr (resolve tz now (data r))
  end.

(** [fetchSubscriptionDetails] for a signed-in or signed-out user: the
    [catch] handler turns a thrown error into the free, no-grace state. *)
Definition fetchSubscriptionDetails
    (tz now : Z) (currentUser : bool) (r : Response) : Resolved :=
  if currentUser then
    match try_block tz now r with
    | inl _ => free_no_grace
    | inr res => res
    end
  else free_no_grace.

End Resolver.

(** ** The state of the useCurrentSubscription hook *)

Module Hook.
Import DateFns.

(** The six [useState] cells; a user is known by its id. *)
Record State : Type := {
  currentUser : option string;
  currentSubscription : option Resolver.UserSubscription;
  subscriptionLoading : bool;
  effectiveTierForLimits : Resolver.SubscriptionTier;
  isInGracePeriod : bool;
  daysLeftInGracePeriod : option JsNumber;
}.

(** The [useState] defaults. *)
Definition initial : State :=
  {| currentUser := None; currentSubscription := None;
     subscriptionLoading := true; effectiveTierForLimits := Resolver.free;
     isInGracePeriod := false; daysLeftInGracePeriod := None |}.

(** The five setters that the signed-out paths call together. *)
Definition reset (s : State) : State :=
  {| currentUser := currentUser s; currentSubscription := None;
     subscriptionLoading := false; effectiveTierForLimits := Resolver.free;
     isInGracePeriod := false; daysLeftInGracePeriod := None |}.

Definition setCurrentUser (user : option string) (s : State) : State :=
  {| currentUser := user; currentSubscription := currentSubscription s;
     subscriptionLoading := subscriptionLoading s;
     effectiveTierForLimits := effectiveTierForLimits s;
     isInGracePeriod := isInGracePeriod s;
     daysLeftInGracePeriod := daysLeftInGracePeriod s |}.

(** The [onAuthStateChange] callback, lines 33-42. *)
Definition onAuthStateChange (user : option string) (s : State) : State :=
  match user with
  | Some _ => setCurrentUser user s
  | None => reset (setCurrentUser None s)
  end.

(** The continuation of [supabase.auth.getUser()], lines 45-51: without a
    user it stops the loading flag and sets the tier, and nothing else. *)
Definition getUser_then (user : option string) (s : State) : State :=
  match user with
  | Some _ => setCurrentUser user s
  | None =>
      {| currentUser := None; currentSubscription := currentSubscription s;
         subscriptionLoading := false;
         effectiveTierForLimits := Resolver.free;
         isInGracePeriod := isInGracePeriod s;
         daysLeftInGracePeriod := daysLeftInGracePeriod s |}
  end.

(** The effect on [currentUser], lines 132-142, up to the [await] inside
    [fetchSubscriptionDetails] when there is a user. *)
Definition effect (s : State) : State :=
  match currentUser s with
  | Some _ =>
      {| currentUser := currentUser s;
         currentSubscription := currentSubscription s;
         subscriptionLoading := true;
         effectiveTierForLimits := effectiveTierForLimits s;
         isInGracePeriod := isInGracePeriod s;
         daysLeftInGracePeriod := daysLeftInGracePeriod s |}
  | None => reset s
  end.

(** [fetchSubscriptionDetails] from the [await] on, lines 72-129, when the
    request settles with response [r] at time [now] in a browser in zone
    [tz]. *)
Definition settle (tz now : Z) (r : Resolver.Response) (s : State) : State :=
  let out := Resolver.fetchSubscriptionDetails tz now true r in
  {| currentUser := currentUser s;
     currentSubscription :=
       match Resolver.try_block tz now r with
       | inl _ => None
       | inr _ => Resolver.data r
       end;
     subscriptionLoading := false;
     effectiveTierForLimits := Resolver.effectiveTierForLimits out;
     isInGracePeriod := Resolver.isInGracePeriod out;
     daysLeftInGracePeriod := Resolver.daysLeftInGracePeriod out |}.

(** One callback runs.  A pending request may settle at any later moment,
    whatever happened to the state in between. *)
Inductive step : State → State → Prop :=
| step_onAuthStateChange user s : step s (onAuthStateChange user s)
| step_getUser_then user s : step s (getUser_then user s)
| step_effect s : step s (effect s)
| step_settle tz now r s : step s (settle tz now r s).

Definition reachable (s : State) : Prop := rtc step initial s.

End Hook.

(** ** The database and the PL/pgSQL cleanup functions *)

Module Cleanup.

Definition UUID : Type := N.
Bind Scope N_scope with UUID.

(** A row of one of the quota-bound tables, with the three columns the
    cleanup reads. *)
Record Entity : Type := {
  id : UUID;
  user_id : UUID;
  created_at : Z;
}.

Record FollowUp : Type := {
  fu_id : UUID;
  fu_user_id : UUID;
  fu_job_opening_id : UUID;
}.

Record JobOpeningContact : Type := {
  joc_user_id : UUID;
  joc_job_opening_id : UUID;
  joc_contact_id : UUID;
}.

Record Subscription : Type := {
  us_user_id : UUID;
  us_tier : string;
  us_status : string;
  us_plan_expiry_date : option Z;
}.

Record DB : Type := {
  user_subscriptions : list Subscription;
  companies : list Entity;
  contacts : list Entity;
  job_openings : list Entity;
  follow_ups : list FollowUp;
  job_opening_contacts : list JobOpeningContact;
}.

Global Instance Entity_eq_dec : EqDecision Entity.
Proof. solve_decision. Defined.
Global Instance FollowUp_eq_dec : EqDecision FollowUp.
Proof. solve_decision. Defined.
Global Instance JobOpeningContact_eq_dec : EqDecision JobOpeningContact.
Proof. solve_decision. Defined.
Global Instance Subscription_eq_dec : EqDecision Subscription.
Proof. solve_decision. Defined.
Global Instance DB_eq_dec : EqDecision DB.
Proof. solve_decision. Defined.

(** The table names [delete_excess_records_for_user] is called with. *)
Inductive EntityTable : Type := Companies | Contacts | JobOpenings.

Global Instance EntityTable_eq_dec : EqDecision EntityTable.
Proof. solve_decision. Defined.

Definition table (t : EntityTable) (db : DB) : list Entity :=
  match t with
  | Companies => companies db
  | Contacts => contacts db
  | JobOpenings => job_openings db
  end.

Definition set_table (t : EntityTable) (rows : list Entity) (db : DB) : DB :=
  match t with
  | Companies =>
      {| user_subscriptions := user_subscriptions db; companies := rows;
         contacts := contacts db; job_openings := job_openings db;
         follow_ups := follow_ups db;
         job_opening_contacts := job_opening_contacts db |}
  | Contacts =>
      {| user_subscriptions := user_subscriptions db;
         companies := companies db; contacts := rows;
         job_openings := job_openings db; follow_ups := follow_ups db;
         job_opening_contacts := job_opening_contacts db |}
  | JobOpenings =>
      {| user_subscriptions := user_subscriptions db;
         companies := companies db; contacts := contacts db;
         job_openings := rows; follow_ups := follow_ups db;
         job_opening_contacts := job_opening_contacts db |}
  end.

Definition set_follow_ups (rows : list FollowUp) (db : DB) : DB :=
  {| user_subscriptions := user_subscriptions db; companies := companies db;
     contacts := contacts db; job_openings := job_openings db;
     follow_ups := rows; job_opening_contacts := job_opening_contacts db |}.

Definition set_job_opening_contacts
    (rows : list JobOpeningContact) (db : DB) : DB :=
  {| user_subscriptions := user_subscriptions db; companies := companies db;
     contacts := contacts db; job_openings := job_openings db;
     follow_ups := follow_ups db; job_opening_contacts := rows |}.

Definition set_user_subscriptions (rows : list Subscription) (db : DB) : DB :=
  {| user_subscriptions := rows; companies := companies db;
     contacts := contacts db; job_openings := job_openings db;
     follow_ups := follow_ups db;
     job_opening_contacts := job_opening_contacts db |}.

(** What [RAISE NOTICE] emits. *)
Inductive Notice : Type :=
| Processing (u : UUID) (expiry : option Z)
| CleanedFollowUps (u : UUID)
| CleanedJobOpeningContacts (u : UUID)
| DeletedKept (u : UUID) (deleted : Z) (t : EntityTable) (kept : Z)
| NoExcess (u : UUID) (t : EntityTable) (count limit : Z)
| SubscriptionDeleted (u : UUID)
| Finished.

Global Instance Notice_eq_dec : EqDecision Notice.
Proof. solve_decision. Defined.

(** The outcome of running a function body on a database: the value it
    returns (of type [unit] for [RETURNS VOID]), the database afterwards and
    the notices raised, in order. *)
Definition Result (A : Type) : Type := A * DB * list Notice.

Definition db_after {A} (r : Result A) : DB := r.1.2.
Definition notices {A} (r : Result A) : list Notice := r.2.
Definition returned {A} (r : Result A) : A := r.1.1.

(** [WHERE user_id = u] *)
Definition user_rows (u : UUID) (rows : list Entity) : list Entity :=
  filter (λ r, user_id r = u) rows.

(** *** ROW_NUMBER() OVER (ORDER BY created_at ASC)

    The window orders by [created_at] alone.  SQL leaves the order of rows
    with equal keys to the executor, so every arrangement of the rows in
    ascending [created_at] order is a possible numbering.  The relations
    below let each window take any of them, which covers every executor;
    what they prove holds however ties are broken.  An executor that numbers
    the same stored rows the same way every time is a [rank] of the [run_]
    functions further down. *)
Definition older (a b : Entity) : Prop := created_at a ≤ created_at b.

Global Instance older_dec : RelDecision older.
Proof. intros a b. unfold older. apply _. Defined.

Definition ranked_items (rows ranked : list Entity) : Prop :=
  ranked ≡ₚ rows ∧ Sorted older ranked.

(** The rows paired with [rn], which counts from 1. *)
Definition row_number (ranked : list Entity) : list (Entity * Z) :=
  zip ranked (seqZ 1 (Z.of_nat (length ranked))).

(** [SELECT id FROM ranked_items WHERE rn > limit] *)
Definition excess_ids (ranked : list Entity) (limit : Z) : list UUID :=
  (λ p, id p.1) <$> filter (λ p, limit < p.2) (row_number ranked).

(** One ordering the executor can always produce. *)
Definition sort_by_created_at (rows : list Entity) : list Entity :=
  merge_sort older rows.

(** *** delete_excess_records_for_user *)

(** [DELETE FROM t WHERE id IN (ids) AND user_id = u], on the rows of [t]. *)
Definition delete_ids_of_user
    (ids : list UUID) (u : UUID) (rows : list Entity) : list Entity :=
  filter (λ r, ¬ (id r ∈ ids ∧ user_id r = u)) rows.

(** The DELETE of the reclaimer, given the numbering its window produced. *)
Definition delete_ranked_excess
    (ranked : list Entity) (p_user_id : UUID) (t : EntityTable)
    (p_limit : Z) (db : DB) : DB :=
  set_table t
    (delete_ids_of_user (excess_ids ranked p_limit) p_user_id (table t db)) db.

Definition row_count (p_user_id : UUID) (t : EntityTable) (db : DB) : Z :=
  Z.of_nat (length (user_rows p_user_id (table t db))).

Inductive delete_excess_records_for_user
    (p_user_id : UUID) (p_entity_table_name : EntityTable) (p_limit : Z)
    (db : DB) : Result unit → Prop :=
| delete_excess ranked :
    row_count p_user_id p_entity_table_name db > p_limit →
    ranked_items (user_rows p_user_id (table p_entity_table_name db)) ranked →
    delete_excess_records_for_user p_user_id p_entity_table_name p_limit db
      ((),
       delete_ranked_excess ranked p_user_id p_entity_table_name p_limit db,
       [DeletedKept p_user_id
          (row_count p_user_id p_entity_table_name db - p_limit)
          p_entity_table_name p_limit])
| no_excess :
    ¬ row_count p_user_id p_entity_table_name db > p_limit →
    delete_excess_records_for_user p_user_id p_entity_table_name p_limit db
      ((), db,
       [NoExcess p_user_id p_entity_table_name
          (row_count p_user_id p_entity_table_name db) p_limit]).

(** *** daily_user_data_cleanup *)

Definition free_tier_company_limit : Z := 25.
Definition free_tier_contact_limit : Z := 25.
Definition free_tier_job_opening_limit : Z := 30.
Definition grace_period_days : Z := 7.

(** [t::date], as a day number. *)
Definition date_of (t : Z) : Z := t `div` msPerDay.

(** The [WHERE] clause of the loop query. *)
Definition eligible (current_date : Z) (us : Subscription) : bool :=
  bool_decide (us_tier us = "premium")
  && match us_plan_expiry_date us with
     | Some expiry =>
         bool_decide (date_of expiry + grace_period_days < current_date)
     | None => false
     end.

Definition delete_follow_ups_of
    (job_opening_ids : list UUID) (u : UUID) (db : DB) : DB :=
  set_follow_ups
    (filter (λ f, ¬ (fu_job_opening_id f ∈ job_opening_ids ∧ fu_user_id f = u))
            (follow_ups db))
    db.

Definition delete_job_opening_contacts_of
    (job_opening_ids : list UUID) (u : UUID) (db : DB) : DB :=
  set_job_opening_contacts
    (filter
       (λ c, ¬ (joc_job_opening_id c ∈ job_opening_ids ∧ joc_user_id c = u))
       (job_opening_contacts db))
    db.

Definition delete_subscription (u : UUID) (db : DB) : DB :=
  set_user_subscriptions
    (filter (λ us, ¬ us_user_id us = u) (user_subscriptions db)) db.

(** The loop body for one selected row [usr]. *)
Inductive cleanup_user (usr : Subscription) (db : DB) : Result unit → Prop :=
| cleanup_user_steps ranked1 ranked2 db3 n3 db4 n4 db5 n5 :
    let u := us_user_id usr in
    let db1 :=
      delete_follow_ups_of
        (excess_ids ranked1 free_tier_job_opening_limit) u db in
    let db2 :=
      delete_job_opening_contacts_of
        (excess_ids ranked2 free_tier_job_opening_limit) u db1 in
    ranked_items (user_rows u (job_openings db)) ranked1 →
    ranked_items (user_rows u (job_openings db1)) ranked2 →
    delete_excess_records_for_user
      u JobOpenings free_tier_job_opening_limit db2 ((), db3, n3) →
    delete_excess_records_for_user
      u Contacts free_tier_contact_limit db3 ((), db4, n4) →
    delete_excess_records_for_user
      u Companies free_tier_company_limit db4 ((), db5, n5) →
    cleanup_user usr db
      ((), delete_subscription u db5,
       [Processing u (us_plan_expiry_date usr);
        CleanedFollowUps u; CleanedJobOpeningContacts u]
       ++ n3 ++ n4 ++ n5 ++ [SubscriptionDeleted u]).

Inductive cleanup_loop : list Subscription → DB → Result unit → Prop :=
| cleanup_loop_end db : cleanup_loop [] db ((), db, [])
| cleanup_loop_next usr rest db db1 n1 db2 n2 :
    cleanup_user usr db ((), db1, n1) →
    cleanup_loop rest db1 ((), db2, n2) →
    cleanup_loop (usr :: rest) db ((), db2, n1 ++ n2).

(** The rows the loop query returns, evaluated once on the database the
    function starts from; the query has no ORDER BY, so they come in any
    order. *)
Definition selected (current_date : Z) (db : DB) : list Subscription :=
  filter (λ us, eligible current_date us) (user_subscriptions db).

Inductive daily_user_data_cleanup (current_date : Z) (db : DB)
  : Result unit → Prop :=
| daily_run usrs db' n :
    usrs ≡ₚ selected current_date db →
    cleanup_loop usrs db ((), db', n) →
    daily_user_data_cleanup current_date db ((), db', n ++ [Finished]).

(** *** The same functions with the executor's orderings fixed

    [rank] is the ordering the executor uses for every window; the loop
    takes the selected rows in table order. *)
Section Run.
Variable rank : list Entity → list Entity.

Definition run_delete_excess_records_for_user
    (p_user_id : UUID) (p_entity_table_name : EntityTable) (p_limit : Z)
    (db : DB) : Result unit :=
  if decide (row_count p_user_id p_entity_table_name db > p_limit) then
    ((),
     delete_ranked_excess
       (rank (user_rows p_user_id (table p_entity_table_name db)))
       p_user_id p_entity_table_name p_limit db,
     [DeletedKept p_user_id
        (row_count p_user_id p_entity_table_name db - p_limit)
        p_entity_table_name p_limit])
  else
    ((), db,
     [NoExcess p_user_id p_entity_table_name
        (row_count p_user_id p_entity_table_name db) p_limit]).

Definition run_cleanup_user (usr : Subscription) (db : DB) : Result unit :=
  let u := us_user_id usr in
  let db1 :=
    delete_follow_ups_of
      (excess_ids (rank (user_rows u (job_openings db)))
                  free_tier_job_opening_limit) u db in
  let db2 :=
    delete_job_opening_contacts_of
      (excess_ids (rank (user_rows u (job_openings db1)))
                  free_tier_job_opening_limit) u db1 in
  let r3 :=
    run_delete_excess_records_for_user
      u JobOpenings free_tier_job_opening_limit db2 in
  let r4 :=
    run_delete_excess_records_for_user
      u Contacts free_tier_contact_limit (db_after r3) in
  let r5 :=
    run_delete_excess_records_for_user
      u Companies free_tier_company_limit (db_after r4) in
  ((), delete_subscription u (db_after r5),
   [Processing u (us_plan_expiry_date usr);
    CleanedFollowUps u; CleanedJobOpeningContacts u]
   ++ notices r3 ++ notices r4 ++ notices r5 ++ [SubscriptionDeleted u]).

Fixpoint run_cleanup_loop (usrs : list Subscription) (db : DB)
  : Result unit :=
  match usrs with
  | [] => ((), db, [])
  | usr :: rest =>
      let r1 := run_cleanup_user usr db in
      let r2 := run_cleanup_loop rest (db_after r1) in
      ((), db_after r2, notices r1 ++ notices r2)
  end.

Definition run_daily_user_data_cleanup (current_date : Z) (db : DB)
  : Result unit :=
  let r := run_cleanup_loop (selected current_date db) db in
  ((), db_after r, notices r ++ [Finished]).
End Run.

(** How many rows of table [t] a call removed. *)
Definition deleted_count {A} (t : EntityTable) (db : DB) (res : Result A) : Z :=
  Z.of_nat (length (table t db)) - Z.of_nat (length (table t (db_after res))).

(** Everything user [v] owns, table by table. *)
Definition records_of (v : UUID) (db : DB) : DB :=
  {| user_subscriptions := filter (λ us, us_user_id us = v) (user_subscriptions db);
     companies := user_rows v (companies db);
     contacts := user_rows v (contacts db);
     job_openings := user_rows v (job_openings db);
     follow_ups := filter (λ f, fu_user_id f = v) (follow_ups db);
     job_opening_contacts :=
       filter (λ c, joc_user_id c = v) (job_opening_contacts db) |}.


(** Any number of runs of the job, on any days, with nothing in between. *)
Inductive cleanup_runs : DB → DB → Prop :=
| cleanup_runs_none db : cleanup_runs db db
| cleanup_runs_more current_date db res db' :
    daily_user_data_cleanup current_date db res →
    cleanup_runs (db_after res) db' →
    cleanup_runs db db'.


(** The quota [daily_user_data_cleanup] passes for each table. *)
Definition free_tier_limit (t : EntityTable) : Z :=
  match t with
  | Companies => free_tier_company_limit
  | Contacts => free_tier_contact_limit
  | JobOpenings => free_tier_job_opening_limit
  end.

(** Every follow-up and contact link points at a job opening in the table,
    owned by the same user. *)
Definition dependents_have_parents (db : DB) : Prop :=
  (∀ f, f ∈ follow_ups db →
        ∃ j, j ∈ job_openings db
             ∧ id j = fu_job_opening_id f ∧ user_id j = fu_user_id f)
  ∧ (∀ c, c ∈ job_opening_contacts db →
          ∃ j, j ∈ job_openings db
               ∧ id j = joc_job_opening_id c ∧ user_id j = joc_user_id c).

(** No two rows of user [u] in one table were created at the same instant. *)
Definition no_ties (u : UUID) (db : DB) : Prop :=
  ∀ t, NoDup (created_at <$> user_rows u (table t db)).

(** The ids [sort_by_created_at] numbers past the job's quota for [t]. *)
Definition sorted_excess_ids (u : UUID) (t : EntityTable) (db : DB) : list UUID :=
  excess_ids (sort_by_created_at (user_rows u (table t db))) (free_tier_limit t).

(** The loop body for user [u] in closed form, every window being ordered by
    [sort_by_created_at]: each table without the rows the body deletes. *)
Definition cleaned_for (u : UUID) (db : DB) : DB :=
  {| user_subscriptions :=
       filter (λ us, ¬ us_user_id us = u) (user_subscriptions db);
     companies :=
       delete_ids_of_user (sorted_excess_ids u Companies db) u (companies db);
     contacts :=
       delete_ids_of_user (sorted_excess_ids u Contacts db) u (contacts db);
     job_openings :=
       delete_ids_of_user (sorted_excess_ids u JobOpenings db) u
         (job_openings db);
     follow_ups :=
       filter (λ f, ¬ (fu_job_opening_id f ∈ sorted_excess_ids u JobOpenings db
                       ∧ fu_user_id f = u))
              (follow_ups db);
     job_opening_contacts :=
       filter (λ c, ¬ (joc_job_opening_id c ∈ sorted_excess_ids u JobOpenings db
                       ∧ joc_user_id c = u))
              (job_opening_contacts db) |}.

(** [db'] is [db] with rows taken out: every table of [db'] lists rows of
    the same table of [db], in the order they have there. *)
Definition rows_removed (db db' : DB) : Prop :=
  user_subscriptions db' `sublist_of` user_subscriptions db
  ∧ (∀ t, table t db' `sublist_of` table t db)
  ∧ follow_ups db' `sublist_of` follow_ups db
  ∧ job_opening_contacts db' `sublist_of` job_opening_contacts db.

(** The subscription row as the hook receives it. *)
Definition as_fetched (us : Subscription) : Resolver.UserSubscription :=
  {| Resolver.tier := us_tier us;
     Resolver.status := us_status us;
     Resolver.plan_expiry_date := DateFns.DateAt <$> us_plan_expiry_date us |}.

End Cleanup.

(** ** Sample databases *)

Module Samples.
Import Cleanup.

(** Rows for user [u] with ids [first], [first + 1], ... and the given
    creation timestamps. *)
Definition rows_of (u : UUID) (first : N) (stamps : list Z) : list Entity :=
  imap (λ i c, {| id := (first + N.of_nat i)%N; user_id := u; created_at := c |})
       stamps.

(** One follow-up, owned by the same user, for each job opening. *)
Definition one_follow_up_each (jobs : list Entity) : list FollowUp :=
  (λ j, {| fu_id := 1000 + id j; fu_user_id := user_id j;
           fu_job_opening_id := id j |}) <$> jobs.

Definition one_link_each (jobs : list Entity) : list JobOpeningContact :=
  (λ j, {| joc_user_id := user_id j; joc_job_opening_id := id j;
           joc_contact_id := 500 |}) <$> jobs.

Definition day (d : Z) : Z := d * msPerDay.

Definition lapsed : Subscription :=
  {| us_user_id := 1; us_tier := "premium"; us_status := "active";
     us_plan_expiry_date := Some (day 19990 + 3600000) |}.

Definition open_ended : Subscription :=
  {| us_user_id := 2; us_tier := "premium"; us_status := "active";
     us_plan_expiry_date := None |}.

Definition in_grace : Subscription :=
  {| us_user_id := 3; us_tier := "premium"; us_status := "active";
     us_plan_expiry_date := Some (day 19993 + 1) |}.

(** User 1 has 35 job openings created at distinct times, each with one
    follow-up and one contact link, 40 companies and 20 contacts; users 2 and
    3 have a few rows of their own. *)
Definition db_distinct : DB :=
  let jobs := rows_of 1 100 ((λ i, 10 * i) <$> seqZ 0 35) in
  let jobs2 := rows_of 2 200 [5; 5; 7] in
  {| user_subscriptions := [lapsed; open_ended; in_grace];
     companies := rows_of 1 300 ((λ i, 3 * i) <$> seqZ 0 40)
                  ++ rows_of 3 400 [1; 2];
     contacts := rows_of 2 480 [9] ++ rows_of 1 500 (seqZ 0 20);
     job_openings := jobs2 ++ jobs;
     follow_ups := one_follow_up_each (jobs ++ jobs2);
     job_opening_contacts := one_link_each (jobs2 ++ jobs) |}.

(** The same user with all 35 job openings created at the same instant. *)
Definition db_tied : DB :=
  let jobs := rows_of 1 100 (replicate 35 0) in
  {| user_subscriptions := [lapsed];
     companies := [];
     contacts := [];
     job_openings := jobs;
     follow_ups := one_follow_up_each jobs;
     job_opening_contacts := [] |}.

(** Two companies of user 1 created at the same instant. *)
Definition db_two_tied : DB :=
  {| user_subscriptions := [];
     companies := rows_of 1 1 [50; 50];
     contacts := [];
     job_openings := [];
     follow_ups := [];
     job_opening_contacts := [] |}.

End Samples.

Import DateFns Resolver Cleanup.

(** * Properties *)

(** ** Day arithmetic *)

Lemma date_of_local_day t : date_of t = local_day 0 t.
Proof. unfold date_of, local_day. by rewrite Z.add_0_r. Qed.

Lemma startOfDay_local_day tz t :
  t - (t + tz) `mod` msPerDay = local_day tz t * msPerDay - tz.
Proof.
  unfold local_day. pose proof (Z.div_mod (t + tz) msPerDay) as H.
  unfold msPerDay in *. lia.
Qed.

Lemma local_day_bounds tz t :
  local_day tz t * msPerDay - tz ≤ t < (local_day tz t + 1) * msPerDay - tz.
Proof.
  unfold local_day.
  pose proof (Z.div_mod (t + tz) msPerDay).
  pose proof (Z.mod_pos_bound (t + tz) msPerDay).
  unfold msPerDay in *. lia.
Qed.

Lemma whole_days_quot d : (d * msPerDay) `quot` msPerDay = d.
Proof. apply Z.quot_mul. unfold msPerDay. lia. Qed.

(** The resolver on a premium, active subscription with a valid expiry date,
    by the day numbers, in the browser's zone, of the expiry and of now. *)
Lemma resolve_premium_active tz now sub t :
  tier sub = "premium" → status sub = "active" →
  plan_expiry_date sub = Some (DateAt t) →
  resolve tz now (Some sub) =
    if bool_decide (local_day tz now < local_day tz t) then
      {| effectiveTierForLimits := premium; isInGracePeriod := false;
         daysLeftInGracePeriod := None |}
    else if bool_decide (local_day tz now ≤ local_day tz t + 7) then
      {| effectiveTierForLimits := free; isInGracePeriod := true;
         daysLeftInGracePeriod :=
           Some (Num (local_day tz t + 7 - local_day tz now)) |}
    else free_no_grace.
Proof.
  intros Ht Hs He. unfold resolve. rewrite He.
  rewrite bool_decide_eq_true_2 by done.
  cbn [startOfDay addDays isFuture differenceInDays is_zero max0].
  rewrite !startOfDay_local_day. unfold GRACE_PERIOD_DAYS.
  replace (local_day tz t * msPerDay - tz + 7 * msPerDay
           - (local_day tz now * msPerDay - tz))
    with ((local_day tz t + 7 - local_day tz now) * msPerDay) by lia.
  rewrite whole_days_quot.
  pose proof (local_day_bounds tz now) as Hn.
  assert (0 < msPerDay) as Hd by (unfold msPerDay; lia).
  repeat case_bool_decide; simpl; try reflexivity; try nia.
  - do 2 f_equal. f_equal. lia.
  - do 2 f_equal. f_equal. lia.
Qed.

(** ** The resolver *)

(** C7.  A premium, active subscription whose expiry date is one day before
    today, by the browser's calendar in whatever zone it is, resolves to
    effective tier free, grace period active, six days of grace left. *)
Theorem expired_yesterday_six_days_left tz now r sub t :
  data r = Some sub → error r = None →
  tier sub = "premium" → status sub = "active" →
  plan_expiry_date sub = Some (DateAt t) →
  local_day tz t = local_day tz now - 1 →
  fetchSubscriptionDetails tz now true r =
    {| effectiveTierForLimits := free; isInGracePeriod := true;
       daysLeftInGracePeriod := Some (Num 6) |}.
Proof.
  intros Hd He Ht Hs Hx Hday.
  unfold fetchSubscriptionDetails, try_block. rewrite He, Hd.
  rewrite (resolve_premium_active tz now sub t Ht Hs Hx).
  rewrite bool_decide_eq_false_2 by lia.
  rewrite bool_decide_eq_true_2 by lia.
  do 2 f_equal. f_equal. lia.
Qed.

Lemma expired_yesterday_six_days_left_witness :
  fetchSubscriptionDetails (-25200000) (20000 * msPerDay + 25204500) true
    {| data := Some {| tier := "premium"; status := "active";
                       plan_expiry_date :=
                         Some (DateAt (19999 * msPerDay + 97200000)) |};
       error := None |} =
    {| effectiveTierForLimits := free; isInGracePeriod := true;
       daysLeftInGracePeriod := Some (Num 6) |}.
Proof.
  apply (expired_yesterday_six_days_left _ _ _
           {| tier := "premium"; status := "active";
              plan_expiry_date := Some (DateAt (19999 * msPerDay + 97200000)) |}
           (19999 * msPerDay + 97200000));
    reflexivity.
Defined.

(** C8.  With no subscription row (with or without the PGRST116 "no rows"
    error), with a failed fetch (any other error, thrown and caught), or with
    a row whose tier is not [premium], whose status is not [active], or whose
    expiry date is null or does not parse, the hook publishes effective tier
    free, no grace period and no days-left value.  [fetchSubscriptionDetails]
    is a total function: the thrown error never reaches the caller. *)
Theorem absent_or_malformed_resolves_free tz now currentUser r :
  (∃ code, error r = Some code ∧ code ≠ "PGRST116")
  ∨ data r = None
  ∨ (∃ sub, data r = Some sub
            ∧ (tier sub ≠ "premium" ∨ status sub ≠ "active"
               ∨ plan_expiry_date sub = None
               ∨ plan_expiry_date sub = Some InvalidDate)) →
  fetchSubscriptionDetails tz now currentUser r = free_no_grace.
Proof.
  intros H. unfold fetchSubscriptionDetails, try_block.
  destruct currentUser; [|done].
  assert (resolve tz now (data r) = free_no_grace ∨
          ∃ code, error r = Some code ∧ code ≠ "PGRST116") as [Hr|Hthrow].
  { destruct H as [H|[H|(sub & Hd & H)]]; [by right|left..].
    - by rewrite H.
    - rewrite Hd. unfold resolve.
      case_bool_decide as Hpa; [|done]. destruct Hpa as [Ht Hs].
      destruct H as [H|[H|[H|H]]]; [done|done|by rewrite H|].
      rewrite H. reflexivity. }
  - destruct (error r) as [code|]; [|by rewrite Hr].
    case_bool_decide; [done|by rewrite Hr].
  - destruct Hthrow as (code & -> & Hne).
    by rewrite bool_decide_eq_true_2.
Qed.

Lemma absent_or_malformed_resolves_free_witness :
  fetchSubscriptionDetails 3600000 (20000 * msPerDay) true
    {| data := Some {| tier := "premium"; status := "active";
                       plan_expiry_date := Some InvalidDate |};
       error := None |} = free_no_grace
  ∧ fetchSubscriptionDetails 3600000 (20000 * msPerDay) true
      {| data := None; error := Some "PGRST116" |} = free_no_grace
  ∧ fetchSubscriptionDetails 3600000 (20000 * msPerDay) true
      {| data := None; error := Some "08006" |} = free_no_grace.
Proof.
  split; [|split].
  - apply absent_or_malformed_resolves_free. right; right.
    eexists. split; [reflexivity|]. right; right; right. reflexivity.
  - apply absent_or_malformed_resolves_free. right; left. reflexivity.
  - apply absent_or_malformed_resolves_free. left.
    exists "08006". split; [reflexivity|]. discriminate.
Defined.

(** ** Lists *)

Section ListFacts.
Context {A B : Type} (f : A → B) (P : A → Prop) `{!∀ x, Decision (P x)}.

Lemma filter_all (l : list A) : Forall P l → filter P l = l.
Proof.
  induction 1 as [|x l Hx _ IH]; [done|].
  by rewrite filter_cons_True, IH.
Qed.

Lemma filter_none (l : list A) : Forall (λ x, ¬ P x) l → filter P l = [].
Proof.
  induction 1 as [|x l Hx _ IH]; [done|].
  by rewrite filter_cons_False.
Qed.

Lemma NoDup_fmap_filter (l : list A) :
  NoDup (f <$> l) → NoDup (f <$> filter P l).
Proof.
  induction l as [|x l IH]; [done|].
  rewrite fmap_cons, NoDup_cons. intros [Hx Hl].
  rewrite filter_cons. case_decide; [|by auto].
  rewrite fmap_cons, NoDup_cons. split; [|by auto].
  intros (y & Hy & Hin)%list_elem_of_fmap.
  apply Hx, list_elem_of_fmap. exists y. split; [done|].
  by apply list_elem_of_filter in Hin as [_ ?].
Qed.

Lemma NoDup_fmap_elem_eq (l : list A) x y :
  NoDup (f <$> l) → x ∈ l → y ∈ l → f x = f y → x = y.
Proof.
  induction l as [|z l IH]; [by intros _ ?%elem_of_nil|].
  rewrite fmap_cons, NoDup_cons. intros [Hz Hl] Hx Hy Hxy.
  apply elem_of_cons in Hx as [->|Hx]; apply elem_of_cons in Hy as [->|Hy];
    [done| | |by auto].
  - destruct Hz. rewrite Hxy. by apply list_elem_of_fmap_2.
  - destruct Hz. rewrite <-Hxy. by apply list_elem_of_fmap_2.
Qed.

Lemma length_filter_complement (l : list A) :
  (length (filter P l) + length (filter (λ x, ¬ P x) l) = length l)%nat.
Proof. by rewrite <-length_app, filter_app_complement. Qed.

End ListFacts.

(** Keeping, or dropping, the rows whose key is among those of the tail of a
    list with distinct keys splits the list at that point. *)
Lemma filter_keys_of_tail {A K} `{EqDecision K} (key : A → K) (l : list A) k :
  NoDup (key <$> l) →
  filter (λ x, key x ∈ key <$> drop k l) l = drop k l
  ∧ filter (λ x, ¬ key x ∈ key <$> drop k l) l = take k l.
Proof.
  intros Hnd. rewrite <-(take_drop k l) in Hnd at 1.
  rewrite fmap_app in Hnd. apply NoDup_app in Hnd as (_ & Hdisj & _).
  set (X := key <$> drop k l) in *.
  assert (Forall (λ x, ¬ key x ∈ X) (take k l)) as Htake.
  { apply Forall_forall. intros x Hx. apply Hdisj.
    by apply list_elem_of_fmap_2. }
  assert (Forall (λ x, key x ∈ X) (drop k l)) as Hdrop.
  { apply Forall_forall. intros x Hx. by apply list_elem_of_fmap_2. }
  split.
  - rewrite <-(take_drop k l) at 1. rewrite filter_app.
    rewrite (filter_none (λ x, key x ∈ X)) by done.
    by rewrite (filter_all (λ x, key x ∈ X)).
  - rewrite <-(take_drop k l) at 1. rewrite filter_app.
    rewrite (filter_all (λ x, ¬ key x ∈ X)) by done.
    rewrite (filter_none (λ x, ¬ key x ∈ X)); [by rewrite app_nil_r|].
    eapply Forall_impl; [exact Hdrop|]. naive_solver.
Qed.

(** ** Ranking *)

Lemma excess_ids_from s (l : list Entity) (L : Z) :
  (λ p : Entity * Z, id p.1)
    <$> filter (λ p, L < p.2) (zip l (seqZ s (Z.of_nat (length l))))
  = id <$> drop (Z.to_nat (L - s + 1)) l.
Proof.
  revert s. induction l as [|x l IH]; intros s.
  - by rewrite drop_nil.
  - rewrite seqZ_cons by (simpl; lia).
    replace (Z.pred (Z.of_nat (length (x :: l)))) with (Z.of_nat (length l))
      by (simpl; lia).
    cbn [zip zip_with]. rewrite filter_cons. cbn [snd fst].
    specialize (IH (Z.succ s)).
    replace (L - Z.succ s + 1) with (L - s) in IH by lia.
    case_decide.
    + rewrite fmap_cons. cbn [fst]. rewrite IH.
      replace (Z.to_nat (L - s + 1)) with 0%nat by lia.
      replace (Z.to_nat (L - s)) with 0%nat by lia.
      by rewrite !drop_0.
    + rewrite IH.
      replace (Z.to_nat (L - s + 1)) with (S (Z.to_nat (L - s))) by lia.
      done.
Qed.

(** Rows with [rn > limit] are the rows after the first [limit]. *)
Lemma excess_ids_drop ranked (L : Z) :
  excess_ids ranked L = id <$> drop (Z.to_nat L) ranked.
Proof.
  unfold excess_ids, row_number. rewrite excess_ids_from.
  by replace (L - 1 + 1) with L by lia.
Qed.

Global Instance older_trans : Transitive older.
Proof. unfold older. intros a b c. lia. Qed.

Global Instance older_total : Total older.
Proof. unfold older. intros a b. lia. Qed.

(** The executor can always produce a numbering. *)
Lemma sort_by_created_at_ranked rows :
  ranked_items rows (sort_by_created_at rows).
Proof.
  split.
  - apply merge_sort_Permutation.
  - apply Sorted_merge_sort, _.
Qed.

Lemma ranked_items_length rows ranked :
  ranked_items rows ranked → length ranked = length rows.
Proof. intros [Hp _]. by rewrite Hp. Qed.

(** With distinct creation timestamps there is only one numbering. *)
Lemma ranked_items_unique rows r1 r2 :
  NoDup (created_at <$> rows) →
  ranked_items rows r1 → ranked_items rows r2 → r1 = r2.
Proof.
  intros Hnd [Hp1 Hs1] [Hp2 Hs2].
  apply (Sorted_unique_strong older); [|done|done|by rewrite Hp1, Hp2].
  intros x1 x2 Hx1 Hx2 H12 H21. rewrite Hp1 in Hx1. rewrite Hp2 in Hx2.
  apply (NoDup_fmap_elem_eq created_at rows); [done..|].
  unfold older in *. lia.
Qed.

(** ** The tables a statement leaves alone *)

Lemma table_set_table t rows db : table t (set_table t rows db) = rows.
Proof. by destruct t. Qed.

Lemma table_set_table_ne t t' rows db :
  t ≠ t' → table t' (set_table t rows db) = table t' db.
Proof. by destruct t, t'. Qed.

Lemma table_delete_ranked_excess ranked u t L db :
  table t (delete_ranked_excess ranked u t L db) =
  delete_ids_of_user (excess_ids ranked L) u (table t db).
Proof. apply table_set_table. Qed.

(** ** One DELETE of the reclaimer *)

Section DeleteRankedExcess.
Context (u : UUID) (L : Z) (rows ranked : list Entity).

Local Abbreviation kept := (delete_ids_of_user (excess_ids ranked L) u rows).

(** Rows of other users stay, in place. *)
Lemma delete_other_users v : v ≠ u → user_rows v kept = user_rows v rows.
Proof using Type.
  intros Hv. unfold delete_ids_of_user, user_rows. rewrite list_filter_filter.
  apply list_filter_iff. intros r. intuition congruence.
Qed.

Lemma delete_user_rows :
  user_rows u kept = filter (λ r, ¬ id r ∈ excess_ids ranked L) (user_rows u rows).
Proof using Type.
  unfold delete_ids_of_user, user_rows. rewrite !list_filter_filter.
  apply list_filter_iff. intros r. intuition congruence.
Qed.

Lemma delete_removed :
  filter (λ r, ¬ ¬ (id r ∈ excess_ids ranked L ∧ user_id r = u)) rows
  = filter (λ r, id r ∈ excess_ids ranked L) (user_rows u rows).
Proof using Type.
  unfold user_rows. rewrite list_filter_filter.
  apply list_filter_iff. intros r.
  destruct (decide (id r ∈ excess_ids ranked L ∧ user_id r = u)); tauto.
Qed.

Hypothesis Hranked : ranked_items (user_rows u rows) ranked.
Hypothesis Hkey : NoDup (id <$> rows).

Lemma ranked_key : NoDup (id <$> ranked).
Proof using Hranked Hkey.
  destruct Hranked as [Hp _]. rewrite Hp. by apply NoDup_fmap_filter.
Qed.

(** The user's remaining rows are those numbered up to the limit. *)
Lemma delete_keeps_first : user_rows u kept ≡ₚ take (Z.to_nat L) ranked.
Proof using Hranked Hkey.
  rewrite delete_user_rows, excess_ids_drop.
  destruct Hranked as [Hp _]. rewrite <-Hp.
  by rewrite (proj2 (filter_keys_of_tail id ranked (Z.to_nat L) ranked_key)).
Qed.

(** The table was what remains together with the rows numbered past the
    limit. *)
Lemma delete_removes_rest : rows ≡ₚ kept ++ drop (Z.to_nat L) ranked.
Proof using Hranked Hkey.
  rewrite <-(filter_app_complement
               (λ r, ¬ (id r ∈ excess_ids ranked L ∧ user_id r = u)) rows) at 1.
  apply Permutation_app_head.
  rewrite delete_removed, excess_ids_drop.
  destruct Hranked as [Hp _]. rewrite <-Hp.
  by rewrite (proj1 (filter_keys_of_tail id ranked (Z.to_nat L) ranked_key)).
Qed.

End DeleteRankedExcess.

(** ** The reclaimer *)

(** With a fixed ordering that is a numbering, the run is an execution. *)
Section RunSound.
Context (rank : list Entity → list Entity).
Hypothesis rank_ranked : ∀ rows, ranked_items rows (rank rows).

Lemma run_delete_excess_records_for_user_sound u t L db :
  delete_excess_records_for_user u t L db
    (run_delete_excess_records_for_user rank u t L db).
Proof using rank_ranked.
  unfold run_delete_excess_records_for_user. case_decide.
  - by apply delete_excess.
  - by apply no_excess.
Qed.

End RunSound.

(** The reclaimer always returns. *)
Lemma delete_excess_records_for_user_total u t L db :
  ∃ res, delete_excess_records_for_user u t L db res.
Proof.
  eexists.
  apply (run_delete_excess_records_for_user_sound sort_by_created_at).
  apply sort_by_created_at_ranked.
Qed.

(** How many rows the DELETE removes and how many of the user's it leaves. *)
Lemma delete_ranked_excess_counts u t (L : Z) db ranked :
  0 ≤ L →
  NoDup (id <$> table t db) →
  ranked_items (user_rows u (table t db)) ranked →
  Z.of_nat (length (table t db))
  - Z.of_nat (length (table t (delete_ranked_excess ranked u t L db)))
  = Z.max 0 (row_count u t db - L)
  ∧ row_count u t (delete_ranked_excess ranked u t L db)
    = Z.min L (row_count u t db).
Proof.
  intros HL Hkey Hranked.
  pose proof (delete_keeps_first u L _ _ Hranked Hkey) as Hkeep.
  pose proof (delete_removes_rest u L _ _ Hranked Hkey) as Hrest.
  pose proof (ranked_items_length _ _ Hranked) as Hlen.
  unfold row_count. rewrite table_delete_ranked_excess. split.
  - rewrite Hrest at 1. rewrite length_app, length_drop. lia.
  - rewrite Hkeep, length_take. lia.
Qed.

(** C1.  For a limit [L ≥ 0] and a table whose [id] column is a key, a run
    of the reclaimer for user [u] keeps exactly the rows of [u] numbered
    1..L in an ascending-[created_at] numbering of the user's [n] rows and
    deletes exactly the rows numbered above [L]: [max 0 (n - L)] rows go,
    [min L n] stay, no kept row is younger than a deleted one, and with
    [n ≤ L] the database is unchanged. *)
Theorem reclaimer_keeps_the_oldest u t (L : Z) db res :
  0 ≤ L →
  NoDup (id <$> table t db) →
  delete_excess_records_for_user u t L db res →
  ∃ ranked,
    ranked_items (user_rows u (table t db)) ranked
    ∧ user_rows u (table t (db_after res)) ≡ₚ take (Z.to_nat L) ranked
    ∧ table t db ≡ₚ table t (db_after res) ++ drop (Z.to_nat L) ranked
    ∧ (∀ a b, a ∈ take (Z.to_nat L) ranked → b ∈ drop (Z.to_nat L) ranked →
              created_at a ≤ created_at b)
    ∧ deleted_count t db res = Z.max 0 (row_count u t db - L)
    ∧ row_count u t (db_after res) = Z.min L (row_count u t db)
    ∧ (row_count u t db ≤ L → db_after res = db).
Proof.
  intros HL Hkey Hrun.
  assert (∀ ranked, ranked_items (user_rows u (table t db)) ranked →
            ∀ a b, a ∈ take (Z.to_nat L) ranked →
                   b ∈ drop (Z.to_nat L) ranked →
                   created_at a ≤ created_at b) as Holdest.
  { intros ranked [_ Hs] a b Ha Hb.
    apply Sorted_StronglySorted in Hs; [|apply _].
    rewrite <-(take_drop (Z.to_nat L) ranked) in Hs.
    exact (StronglySorted_app_1_elem_of _ _ _ _ _ Hs Ha Hb). }
  destruct Hrun as [ranked Hgt Hranked|Hle];
    unfold deleted_count, db_after; cbn [fst snd].
  - exists ranked.
    pose proof (delete_keeps_first u L _ _ Hranked Hkey) as Hkeep.
    pose proof (delete_removes_rest u L _ _ Hranked Hkey) as Hrest.
    destruct (delete_ranked_excess_counts u t L db ranked HL Hkey Hranked)
      as [Hdel Hleft].
    split_and!; [done| | |by apply Holdest|done|done|lia];
      by rewrite table_delete_ranked_excess.
  - exists (sort_by_created_at (user_rows u (table t db))).
    pose proof (sort_by_created_at_ranked (user_rows u (table t db)))
      as Hranked.
    pose proof (ranked_items_length _ _ Hranked) as Hlen.
    unfold row_count in *.
    rewrite take_ge, drop_ge, app_nil_r by lia.
    split_and!; [done|by destruct Hranked as [Hp _]; rewrite Hp|done| |lia|lia|done].
    intros a b _ Hb. by apply elem_of_nil in Hb.
Qed.

(** Below zero the limit is no quota: every row of the user is numbered
    above it and goes. *)
Example negative_limit_deletes_all :
  companies
    (db_after (run_delete_excess_records_for_user sort_by_created_at
                 1%N Companies (-1) Samples.db_two_tied)) = [].
Proof. reflexivity. Qed.

Lemma reclaimer_keeps_the_oldest_witness :
  let db := Samples.db_distinct in
  let res := run_delete_excess_records_for_user sort_by_created_at
               1%N Companies 25 db in
  ∃ ranked,
    ranked_items (user_rows 1%N (table Companies db)) ranked
    ∧ user_rows 1%N (table Companies (db_after res)) ≡ₚ take (Z.to_nat 25) ranked
    ∧ table Companies db
      ≡ₚ table Companies (db_after res) ++ drop (Z.to_nat 25) ranked
    ∧ (∀ a b, a ∈ take (Z.to_nat 25) ranked → b ∈ drop (Z.to_nat 25) ranked →
              created_at a ≤ created_at b)
    ∧ deleted_count Companies db res
      = Z.max 0 (row_count 1%N Companies db - 25)
    ∧ row_count 1%N Companies (db_after res)
      = Z.min 25 (row_count 1%N Companies db)
    ∧ (row_count 1%N Companies db ≤ 25 → db_after res = db).
Proof.
  intros db res.
  apply (reclaimer_keeps_the_oldest 1%N Companies 25 db res).
  - lia.
  - compute_done.
  - apply run_delete_excess_records_for_user_sound,
      sort_by_created_at_ranked.
Defined.

Lemma set_table_same t db : set_table t (table t db) db = db.
Proof. by destruct t, db. Qed.

(** After the DELETE the user has at most as many rows as the first
    [Z.to_nat L] of the numbering, whether or not [id] is a key. *)
Lemma delete_leaves_at_most u (L : Z) rows ranked :
  ranked_items (user_rows u rows) ranked →
  (length (user_rows u (delete_ids_of_user (excess_ids ranked L) u rows))
   ≤ Z.to_nat L)%nat.
Proof.
  intros [Hp _]. rewrite delete_user_rows, excess_ids_drop, <-Hp.
  assert (Forall (λ x, ¬ ¬ id x ∈ id <$> drop (Z.to_nat L) ranked)
            (drop (Z.to_nat L) ranked)) as Hdrop.
  { apply Forall_forall. intros x Hx Hnot. apply Hnot.
    by apply list_elem_of_fmap_2. }
  set (X := id <$> drop (Z.to_nat L) ranked) in *.
  rewrite <-(take_drop (Z.to_nat L) ranked), filter_app.
  rewrite (filter_none _ (drop _ _)) by done.
  rewrite app_nil_r.
  etrans; [apply length_filter|]. rewrite length_take. lia.
Qed.

(** C6, as the code has it.  The reclaimer returns nothing ([RETURNS VOID])
    and says what it did in one notice.  With the count at or below the
    limit it deletes nothing and raises the "no excess records" notice with
    the count and the limit.  With the count above the limit it raises the
    "deleted, kept" notice with [count - limit] and [limit], and for a limit
    [L ≥ 0] and a key [id] these are the numbers of rows it deleted and
    kept. *)
Theorem reclaimer_reports_in_a_notice u t (L : Z) db res :
  delete_excess_records_for_user u t L db res →
  returned res = ()
  ∧ (row_count u t db ≤ L →
       db_after res = db
       ∧ deleted_count t db res = 0
       ∧ notices res = [NoExcess u t (row_count u t db) L])
  ∧ (row_count u t db > L →
       notices res = [DeletedKept u (row_count u t db - L) t L]
       ∧ (0 ≤ L → NoDup (id <$> table t db) →
            deleted_count t db res = row_count u t db - L
            ∧ row_count u t (db_after res) = L)).
Proof.
  intros Hrun. split; [by destruct (returned res)|].
  destruct Hrun as [ranked Hgt Hranked|Hle].
  - split; [lia|]. intros _. split; [done|]. intros HL Hkey.
    destruct (delete_ranked_excess_counts u t L db ranked HL Hkey Hranked)
      as [Hdel Hleft].
    unfold deleted_count, db_after; cbn [fst snd]. lia.
  - split; [|lia]. intros _. unfold deleted_count, db_after. cbn [fst snd].
    split_and!; [done|lia|done].
Qed.

Lemma reclaimer_reports_in_a_notice_witness :
  let db := Samples.db_distinct in
  let res := run_delete_excess_records_for_user sort_by_created_at
               1%N Companies 25 db in
  returned res = ()
  ∧ (row_count 1%N Companies db ≤ 25 →
       db_after res = db
       ∧ deleted_count Companies db res = 0
       ∧ notices res = [NoExcess 1%N Companies (row_count 1%N Companies db) 25])
  ∧ (row_count 1%N Companies db > 25 →
       notices res = [DeletedKept 1%N (row_count 1%N Companies db - 25)
                        Companies 25]
       ∧ (0 ≤ 25 → NoDup (id <$> table Companies db) →
            deleted_count Companies db res = row_count 1%N Companies db - 25
            ∧ row_count 1%N Companies (db_after res) = 25)).
Proof.
  intros db res.
  apply (reclaimer_reports_in_a_notice 1%N Companies 25 db res).
  apply run_delete_excess_records_for_user_sound, sort_by_created_at_ranked.
Defined.

(** C6, as the specification has it, fails: the value a call returns is the
    same whether one row was deleted or none, so no reading of it is the
    number of deleted rows. *)
Lemma reclaimer_returns_no_count :
  ¬ ∃ count_of : unit → Z,
      ∀ L res,
        delete_excess_records_for_user 1%N Companies L Samples.db_two_tied res →
        count_of (returned res) = deleted_count Companies Samples.db_two_tied res.
Proof.
  intros (count_of & Hcount).
  pose proof (Hcount 1 _
    (run_delete_excess_records_for_user_sound sort_by_created_at
       sort_by_created_at_ranked 1%N Companies 1 Samples.db_two_tied)) as H1.
  pose proof (Hcount 2 _
    (run_delete_excess_records_for_user_sound sort_by_created_at
       sort_by_created_at_ranked 1%N Companies 2 Samples.db_two_tied)) as H2.
  vm_compute in H1, H2. congruence.
Qed.

(** A second call of the reclaimer right after a first one leaves the
    database as the first call left it. *)
Lemma reclaimer_second_call_deletes_nothing u t (L : Z) db res1 res2 :
  delete_excess_records_for_user u t L db res1 →
  delete_excess_records_for_user u t L (db_after res1) res2 →
  db_after res2 = db_after res1 ∧ deleted_count t (db_after res1) res2 = 0.
Proof.
  intros Hrun1 Hrun2.
  assert (db_after res2 = db_after res1) as Heq;
    [|by split; [|unfold deleted_count; rewrite Heq; lia]].
  destruct Hrun2 as [ranked2 Hgt2 Hranked2|Hle2]; [|done].
  destruct Hrun1 as [ranked1 Hgt1 Hranked1|Hle1];
    unfold db_after in *; cbn [fst snd] in *; [|done].
  unfold row_count in Hgt2.
  rewrite table_delete_ranked_excess in Hgt2, Hranked2.
  pose proof (delete_leaves_at_most u L _ _ Hranked1) as Hmost.
  assert (L < 0) as Hneg by lia.
  assert (ranked2 = []) as ->.
  { apply ranked_items_length in Hranked2.
    destruct ranked2; [done|]. cbn [length] in Hranked2. lia. }
  unfold delete_ranked_excess at 1. unfold delete_ids_of_user at 1.
  rewrite filter_all; [apply set_table_same|].
  apply Forall_forall. intros r _ [Hin _]. by apply elem_of_nil in Hin.
Qed.

(** C5, as the code has it.  When the user's rows of the table have pairwise
    distinct creation timestamps, a call of the reclaimer has one possible
    outcome: two executions on the same stored rows delete the same rows and
    raise the same notice. *)
Theorem reclaimer_deterministic_without_ties u t (L : Z) db res1 res2 :
  NoDup (created_at <$> user_rows u (table t db)) →
  delete_excess_records_for_user u t L db res1 →
  delete_excess_records_for_user u t L db res2 →
  res1 = res2.
Proof.
  intros Hnd Hrun1 Hrun2.
  destruct Hrun1 as [r1 Hgt1 Hr1|Hle1], Hrun2 as [r2 Hgt2 Hr2|Hle2];
    try done.
  by rewrite (ranked_items_unique _ r1 r2 Hnd Hr1 Hr2).
Qed.

Lemma reclaimer_deterministic_without_ties_witness :
  run_delete_excess_records_for_user sort_by_created_at
    1%N Companies 25 Samples.db_distinct
  = run_delete_excess_records_for_user (λ rows, reverse (merge_sort (flip older) rows))
      1%N Companies 25 Samples.db_distinct.
Proof.
  apply (reclaimer_deterministic_without_ties
           1%N Companies 25 Samples.db_distinct).
  - compute_done.
  - apply run_delete_excess_records_for_user_sound, sort_by_created_at_ranked.
  - unfold run_delete_excess_records_for_user.
    rewrite decide_True by compute_done.
    apply delete_excess; [compute_done|].
    split; [|compute_done].
    by rewrite reverse_Permutation, merge_sort_Permutation.
Defined.

(** C5, as the specification has it, fails: the window orders by
    [created_at] only, so with two companies created at the same instant
    and a limit of one, one execution deletes the first and another the
    second. *)
Lemma tied_rows_two_outcomes :
  ∃ res1 res2,
    delete_excess_records_for_user 1%N Companies 1 Samples.db_two_tied res1
    ∧ delete_excess_records_for_user 1%N Companies 1 Samples.db_two_tied res2
    ∧ companies (db_after res1)
      = [{| id := 1; user_id := 1; created_at := 50 |}]
    ∧ companies (db_after res2)
      = [{| id := 2; user_id := 1; created_at := 50 |}].
Proof.
  eexists _, _. split_and!.
  - apply (delete_excess _ _ _ _
             [{| id := 1; user_id := 1; created_at := 50 |};
              {| id := 2; user_id := 1; created_at := 50 |}]);
      [compute_done|split; compute_done].
  - apply (delete_excess _ _ _ _
             [{| id := 2; user_id := 1; created_at := 50 |};
              {| id := 1; user_id := 1; created_at := 50 |}]);
      [compute_done|split; compute_done].
  - compute_done.
  - compute_done.
Qed.

(** ** Statements are scoped to one user *)

Lemma filter_after_filter {A} (P Q : A → Prop)
    `{!∀ x, Decision (P x), !∀ x, Decision (Q x)} (l : list A) :
  (∀ x, P x → Q x) → filter P (filter Q l) = filter P l.
Proof.
  intros HPQ. rewrite list_filter_filter. apply list_filter_iff.
  intros x. specialize (HPQ x). tauto.
Qed.

Lemma result_eta (r : Result unit) : r = ((), db_after r, notices r).
Proof. by destruct r as [[[] ?] ?]. Qed.

Section Frame.
Context (u v : UUID).
Hypothesis Hvu : v ≠ u.

Lemma records_of_delete_follow_ups_of ids db :
  records_of v (delete_follow_ups_of ids u db) = records_of v db.
Proof using Hvu.
  unfold records_of, delete_follow_ups_of. cbn. f_equal.
  apply filter_after_filter. intros f Hf [_ ?]. congruence.
Qed.

Lemma records_of_delete_job_opening_contacts_of ids db :
  records_of v (delete_job_opening_contacts_of ids u db) = records_of v db.
Proof using Hvu.
  unfold records_of, delete_job_opening_contacts_of. cbn. f_equal.
  apply filter_after_filter. intros c Hc [_ ?]. congruence.
Qed.

Lemma records_of_delete_ranked_excess ranked t L db :
  records_of v (delete_ranked_excess ranked u t L db) = records_of v db.
Proof using Hvu.
  unfold records_of, delete_ranked_excess.
  destruct t; cbn; f_equal; by apply delete_other_users.
Qed.

Lemma records_of_delete_subscription db :
  records_of v (delete_subscription u db) = records_of v db.
Proof using Hvu.
  unfold records_of, delete_subscription. cbn. f_equal.
  apply filter_after_filter. intros us Hus ?. congruence.
Qed.

Lemma reclaimer_other_users t L db res :
  delete_excess_records_for_user u t L db res →
  records_of v (db_after res) = records_of v db.
Proof using Hvu.
  intros [ranked _ _|_]; [|done]. apply records_of_delete_ranked_excess.
Qed.

End Frame.

Lemma cleanup_user_other_users usr db res v :
  cleanup_user usr db res → v ≠ us_user_id usr →
  records_of v (db_after res) = records_of v db.
Proof.
  intros Hrun Hv.
  destruct Hrun as [r1 r2 db3 n3 db4 n4 db5 n5 u db1 db2 _ _ H3 H4 H5].
  unfold db_after; cbn [fst snd].
  rewrite records_of_delete_subscription by done.
  pose proof (reclaimer_other_users u v Hv _ _ _ _ H5) as E5.
  pose proof (reclaimer_other_users u v Hv _ _ _ _ H4) as E4.
  pose proof (reclaimer_other_users u v Hv _ _ _ _ H3) as E3.
  unfold db_after in E3, E4, E5; cbn [fst snd] in E3, E4, E5.
  rewrite E5, E4, E3. unfold db2, db1.
  rewrite records_of_delete_job_opening_contacts_of by done.
  by rewrite records_of_delete_follow_ups_of.
Qed.

Lemma cleanup_loop_other_users usrs db res v :
  cleanup_loop usrs db res → v ∉ us_user_id <$> usrs →
  records_of v (db_after res) = records_of v db.
Proof.
  induction 1 as [db|usr rest db db1 n1 db2 n2 Huser Hrest IH]; [done|].
  rewrite fmap_cons, not_elem_of_cons. intros [Hv Hrestv].
  unfold db_after in *; cbn [fst snd] in *.
  rewrite IH by done.
  exact (cleanup_user_other_users usr db _ v Huser Hv).
Qed.

(** ** The subscription rows after a run *)

Lemma reclaimer_user_subscriptions u t L db res :
  delete_excess_records_for_user u t L db res →
  user_subscriptions (db_after res) = user_subscriptions db.
Proof. intros [ranked _ _|_]; [|done]. by destruct t. Qed.

Lemma cleanup_user_user_subscriptions usr db res :
  cleanup_user usr db res →
  user_subscriptions (db_after res) =
  filter (λ us, ¬ us_user_id us = us_user_id usr) (user_subscriptions db).
Proof.
  intros Hrun.
  destruct Hrun as [r1 r2 db3 n3 db4 n4 db5 n5 u db1 db2 _ _ H3 H4 H5].
  unfold db_after; cbn [fst snd]. unfold delete_subscription. cbn.
  pose proof (reclaimer_user_subscriptions _ _ _ _ _ H5) as E5.
  pose proof (reclaimer_user_subscriptions _ _ _ _ _ H4) as E4.
  pose proof (reclaimer_user_subscriptions _ _ _ _ _ H3) as E3.
  unfold db_after in E3, E4, E5; cbn [fst snd] in E3, E4, E5.
  by rewrite E5, E4, E3.
Qed.

Lemma cleanup_loop_user_subscriptions usrs db res :
  cleanup_loop usrs db res →
  user_subscriptions (db_after res) =
  filter (λ us, us_user_id us ∉ us_user_id <$> usrs) (user_subscriptions db).
Proof.
  induction 1 as [db|usr rest db db1 n1 db2 n2 Huser Hrest IH].
  - unfold db_after; cbn [fst snd]. symmetry. apply filter_all.
    apply Forall_forall. intros us _. apply not_elem_of_nil.
  - pose proof (cleanup_user_user_subscriptions usr db _ Huser) as E.
    unfold db_after in *; cbn [fst snd] in *. rewrite IH, E.
    rewrite list_filter_filter. apply list_filter_iff. intros us.
    rewrite fmap_cons, not_elem_of_cons. tauto.
Qed.

Lemma daily_user_subscriptions today db res :
  daily_user_data_cleanup today db res →
  user_subscriptions (db_after res) =
  filter (λ us, us_user_id us ∉ us_user_id <$> selected today db)
         (user_subscriptions db).
Proof.
  intros [usrs db' n Hperm Hloop].
  pose proof (cleanup_loop_user_subscriptions usrs db _ Hloop) as E.
  unfold db_after in *; cbn [fst snd] in *. rewrite E.
  apply list_filter_iff. intros us. by rewrite Hperm.
Qed.

(** ** The job always returns *)

Section RunJobSound.
Context (rank : list Entity → list Entity).
Hypothesis rank_ranked : ∀ rows, ranked_items rows (rank rows).

Lemma run_cleanup_user_sound usr db :
  cleanup_user usr db (run_cleanup_user rank usr db).
Proof using rank_ranked.
  unfold run_cleanup_user.
  set (u := us_user_id usr).
  set (db1 := delete_follow_ups_of _ u db).
  set (db2 := delete_job_opening_contacts_of _ u db1).
  set (r3 := run_delete_excess_records_for_user rank u JobOpenings _ db2).
  set (r4 := run_delete_excess_records_for_user rank u Contacts _ (db_after r3)).
  set (r5 := run_delete_excess_records_for_user rank u Companies _ (db_after r4)).
  apply (cleanup_user_steps usr db
           (rank (user_rows u (job_openings db)))
           (rank (user_rows u (job_openings db1)))
           (db_after r3) (notices r3) (db_after r4) (notices r4)
           (db_after r5) (notices r5));
    try apply rank_ranked;
    rewrite <-result_eta;
    by apply run_delete_excess_records_for_user_sound.
Qed.

Lemma run_cleanup_loop_sound usrs db :
  cleanup_loop usrs db (run_cleanup_loop rank usrs db).
Proof using rank_ranked.
  revert db. induction usrs as [|usr rest IH]; intros db;
    cbn [run_cleanup_loop].
  - constructor.
  - set (r1 := run_cleanup_user rank usr db).
    set (r2 := run_cleanup_loop rank rest (db_after r1)).
    apply (cleanup_loop_next usr rest db
             (db_after r1) (notices r1) (db_after r2) (notices r2)).
    + rewrite <-result_eta. apply run_cleanup_user_sound.
    + rewrite <-result_eta. apply IH.
Qed.

Lemma run_daily_user_data_cleanup_sound today db :
  daily_user_data_cleanup today db (run_daily_user_data_cleanup rank today db).
Proof using rank_ranked.
  unfold run_daily_user_data_cleanup.
  apply (daily_run today db (selected today db)); [done|].
  rewrite <-result_eta. apply run_cleanup_loop_sound.
Qed.

End RunJobSound.

Lemma daily_user_data_cleanup_total today db :
  ∃ res, daily_user_data_cleanup today db res.
Proof.
  eexists. apply (run_daily_user_data_cleanup_sound sort_by_created_at).
  apply sort_by_created_at_ranked.
Qed.

(** ** Users the job does not select *)

Lemma daily_other_users today db res v :
  daily_user_data_cleanup today db res →
  v ∉ us_user_id <$> selected today db →
  records_of v (db_after res) = records_of v db.
Proof.
  intros [usrs db' n Hperm Hloop] Hv.
  rewrite <-Hperm in Hv.
  exact (cleanup_loop_other_users usrs db _ v Hloop Hv).
Qed.

(** C9.  A run of the job leaves every record of a user its query did not
    select as it was, in all six tables: every DELETE of the job and of the
    reclaimer carries [user_id = usr.user_id]. *)
Theorem cleanup_leaves_unselected_users_alone today db res v :
  daily_user_data_cleanup today db res →
  v ∉ us_user_id <$> selected today db →
  records_of v (db_after res) = records_of v db.
Proof.
  intros Hrun Hv. by apply (daily_other_users today).
Qed.

Lemma cleanup_leaves_unselected_users_alone_witness :
  let db := Samples.db_distinct in
  let res := run_daily_user_data_cleanup sort_by_created_at 20000 db in
  records_of 2%N (db_after res) = records_of 2%N db.
Proof.
  intros db res.
  apply (cleanup_leaves_unselected_users_alone 20000 db res 2%N).
  - apply run_daily_user_data_cleanup_sound, sort_by_created_at_ranked.
  - compute_done.
Defined.

(** ** Running the job again *)

(** After a run no row of a selected user is left in [user_subscriptions],
    so no later run selects that user. *)
Lemma processed_user_not_selected_again today today' db res u :
  daily_user_data_cleanup today db res →
  u ∈ us_user_id <$> selected today db →
  u ∉ us_user_id <$> selected today' (db_after res).
Proof.
  intros Hrun Hu (us & -> & Hus)%list_elem_of_fmap.
  unfold selected in Hus at 1. apply list_elem_of_filter in Hus as [_ Hus].
  rewrite (daily_user_subscriptions today db res Hrun) in Hus.
  by apply list_elem_of_filter in Hus as [Hnot _].
Qed.

(** A second run on the same day finds nobody to process. *)
Lemma nobody_selected_after_run today db res :
  daily_user_data_cleanup today db res →
  selected today (db_after res) = [].
Proof.
  intros Hrun. unfold selected at 1.
  rewrite (daily_user_subscriptions today db res Hrun).
  apply filter_none, Forall_forall.
  intros us [Hnot Hus]%list_elem_of_filter Hel.
  apply Hnot, list_elem_of_fmap_2. unfold selected.
  by apply list_elem_of_filter.
Qed.

(** C4.  The cleanup is idempotent.  A second call of the reclaimer right
    after a first one deletes no row.  A second run of the job, on any day,
    does not select a user the first run processed and leaves all records of
    that user as the first run left them; on the same day it changes
    nothing at all. *)
Theorem cleanup_is_idempotent :
  (∀ u t (L : Z) db res1 res2,
     delete_excess_records_for_user u t L db res1 →
     delete_excess_records_for_user u t L (db_after res1) res2 →
     db_after res2 = db_after res1
     ∧ deleted_count t (db_after res1) res2 = 0)
  ∧ (∀ today today' db res1 res2 u,
       daily_user_data_cleanup today db res1 →
       daily_user_data_cleanup today' (db_after res1) res2 →
       u ∈ us_user_id <$> selected today db →
       (u ∉ us_user_id <$> selected today' (db_after res1))
       ∧ records_of u (db_after res2) = records_of u (db_after res1)
       ∧ (today' = today → db_after res2 = db_after res1)).
Proof.
  split; [exact reclaimer_second_call_deletes_nothing|].
  intros today today' db res1 res2 u Hrun1 Hrun2 Hu.
  pose proof (processed_user_not_selected_again today today' db res1 u Hrun1 Hu)
    as Hnot.
  split_and!; [done|by apply (daily_other_users today')|].
  intros ->. destruct Hrun2 as [usrs db' n Hperm Hloop].
  rewrite (nobody_selected_after_run today db res1 Hrun1) in Hperm.
  apply Permutation_nil_r in Hperm as ->.
  by inversion Hloop.
Qed.

Lemma cleanup_is_idempotent_witness :
  let db := Samples.db_distinct in
  let rec1 := run_delete_excess_records_for_user sort_by_created_at
                1%N Companies 25 db in
  let rec2 := run_delete_excess_records_for_user sort_by_created_at
                1%N Companies 25 (db_after rec1) in
  let job1 := run_daily_user_data_cleanup sort_by_created_at 20000 db in
  let job2 := run_daily_user_data_cleanup sort_by_created_at 20005
                (db_after job1) in
  (db_after rec2 = db_after rec1
   ∧ deleted_count Companies (db_after rec1) rec2 = 0)
  ∧ ((1%N ∉ us_user_id <$> selected 20005 (db_after job1))
     ∧ records_of 1%N (db_after job2) = records_of 1%N (db_after job1)
     ∧ (20005 = 20000 → db_after job2 = db_after job1)).
Proof.
  intros db rec1 rec2 job1 job2.
  destruct cleanup_is_idempotent as [Hreclaimer Hjob]. split.
  - apply (Hreclaimer 1%N Companies 25 db rec1 rec2);
      apply run_delete_excess_records_for_user_sound,
        sort_by_created_at_ranked.
  - apply (Hjob 20000 20005 db job1 job2 1%N).
    + apply run_daily_user_data_cleanup_sound, sort_by_created_at_ranked.
    + apply run_daily_user_data_cleanup_sound, sort_by_created_at_ranked.
    + compute_done.
Defined.

(** ** The two grace-period boundaries *)

Lemma eligible_iff current_date us :
  eligible current_date us = true ↔
  us_tier us = "premium"
  ∧ ∃ t, us_plan_expiry_date us = Some t
         ∧ date_of t + grace_period_days < current_date.
Proof.
  unfold eligible. rewrite andb_true_iff, bool_decide_eq_true.
  destruct (us_plan_expiry_date us) as [t|].
  - rewrite bool_decide_eq_true. split.
    + intros [? ?]. split; [done|]. by exists t.
    + by intros [? (t' & [= <-] & ?)].
  - split; [by intros [_ [=]]|by intros [_ (t' & [=] & _)]].
Qed.

(** C3, as the code has it.  The hook counts days on the browser's calendar
    and the job on the database's.  For a premium, active subscription and a
    clock such that the expiry instant and the current instant fall on the
    same calendar days in both (as they do when browser and database share a
    zone), with expiry day [e]: when today is [e + 7] the hook still reports
    the grace period as active, with zero days left, and the job does not
    select the row; the job selects it exactly on the days after [e + 7];
    and on day [e + 8], the first day the job selects it, the hook reports
    the grace period as over.  The last day of grace and the first day of
    cleanup are one day apart. *)
Theorem grace_boundaries_one_day_apart tz now us t :
  us_tier us = "premium" → us_status us = "active" →
  us_plan_expiry_date us = Some t →
  local_day tz t = date_of t → local_day tz now = date_of now →
  let hook :=
    fetchSubscriptionDetails tz now true
      {| data := Some (as_fetched us); error := None |} in
  (date_of now = date_of t + 7 →
     hook = {| effectiveTierForLimits := free; isInGracePeriod := true;
               daysLeftInGracePeriod := Some (Num 0) |}
     ∧ eligible (date_of now) us = false)
  ∧ (∀ current_date,
       eligible current_date us = true ↔ date_of t + 7 < current_date)
  ∧ (date_of now = date_of t + 8 →
       hook = free_no_grace ∧ eligible (date_of now) us = true)
  ∧ (isInGracePeriod hook = true ↔ date_of t ≤ date_of now ≤ date_of t + 7).
Proof.
  intros Ht Hs He Hdt Hdn hook.
  assert (hook =
    if bool_decide (date_of now < date_of t) then
      {| effectiveTierForLimits := premium; isInGracePeriod := false;
         daysLeftInGracePeriod := None |}
    else if bool_decide (date_of now ≤ date_of t + 7) then
      {| effectiveTierForLimits := free; isInGracePeriod := true;
         daysLeftInGracePeriod := Some (Num (date_of t + 7 - date_of now)) |}
    else free_no_grace) as Hhook.
  { unfold hook, fetchSubscriptionDetails, try_block. cbn [error data].
    rewrite <-Hdt, <-Hdn.
    apply resolve_premium_active; unfold as_fetched; cbn; [done|done|].
    by rewrite He. }
  assert (∀ current_date,
            eligible current_date us = true ↔ date_of t + 7 < current_date)
    as Hsel.
  { intros d. rewrite eligible_iff. unfold grace_period_days.
    rewrite He. split.
    - by intros [_ (t' & [= <-] & ?)].
    - intros ?. split; [done|]. by exists t. }
  split_and!.
  - intros Hday. split.
    + rewrite Hhook, bool_decide_eq_false_2, bool_decide_eq_true_2 by lia.
      do 2 f_equal. f_equal. lia.
    + apply not_true_is_false. rewrite Hsel. lia.
  - done.
  - intros Hday. split.
    + by rewrite Hhook, !bool_decide_eq_false_2 by lia.
    + apply Hsel. lia.
  - rewrite Hhook. repeat case_bool_decide; cbn; split; (done || lia).
Qed.

Lemma grace_boundaries_one_day_apart_witness :
  let tz := -25200000 in
  let now := Samples.day 20000 + 43200000 in
  let t := Samples.day 19993 + 36000000 in
  let us := {| us_user_id := 3; us_tier := "premium"; us_status := "active";
               us_plan_expiry_date := Some t |} in
  let hook :=
    fetchSubscriptionDetails tz now true
      {| data := Some (as_fetched us); error := None |} in
  (date_of now = date_of t + 7 →
     hook = {| effectiveTierForLimits := free; isInGracePeriod := true;
               daysLeftInGracePeriod := Some (Num 0) |}
     ∧ eligible (date_of now) us = false)
  ∧ (∀ current_date,
       eligible current_date us = true ↔ date_of t + 7 < current_date)
  ∧ (date_of now = date_of t + 8 →
       hook = free_no_grace ∧ eligible (date_of now) us = true)
  ∧ (isInGracePeriod hook = true ↔ date_of t ≤ date_of now ≤ date_of t + 7).
Proof.
  intros tz now t us.
  apply (grace_boundaries_one_day_apart tz now us t); reflexivity.
Defined.

(** C3, as the specification has it, fails when the browser is in another
    zone than the database.  In a browser seven hours behind UTC, with an
    expiry at 20:00 UTC on day 19992 and a clock four seconds after midnight
    UTC on day 20000, the expiry day is seven days before today on the
    browser's calendar and the hook shows the grace period active with zero
    days left, while on the database's calendar it is eight days before
    today and the job's query selects the row. *)
Lemma job_selects_on_the_last_day_of_grace :
  let tz := -25200000 in
  let t := Samples.day 19992 + 72000000 in
  let now := Samples.day 20000 + 4000 in
  let us := {| us_user_id := 1; us_tier := "premium"; us_status := "active";
               us_plan_expiry_date := Some t |} in
  local_day tz t = local_day tz now - 7
  ∧ fetchSubscriptionDetails tz now true
      {| data := Some (as_fetched us); error := None |}
    = {| effectiveTierForLimits := free; isInGracePeriod := true;
         daysLeftInGracePeriod := Some (Num 0) |}
  ∧ eligible (date_of now) us = true.
Proof. split_and!; reflexivity. Qed.

(** ** A premium subscription without an expiry date *)

Lemma unselected_row_survives today db res us :
  daily_user_data_cleanup today db res →
  us ∈ user_subscriptions db →
  us_user_id us ∉ us_user_id <$> selected today db →
  us ∈ user_subscriptions (db_after res).
Proof.
  intros Hrun Hin Hnot.
  rewrite (daily_user_subscriptions today db res Hrun).
  by apply list_elem_of_filter.
Qed.

Lemma subscriptions_only_shrink today db res us :
  daily_user_data_cleanup today db res →
  us ∈ user_subscriptions (db_after res) → us ∈ user_subscriptions db.
Proof.
  intros Hrun. rewrite (daily_user_subscriptions today db res Hrun).
  by intros [_ ?]%list_elem_of_filter.
Qed.

(** C10.  Take a subscription row with tier [premium], status [active] and
    a null expiry date, the only row of its user.  The hook resolves it to
    effective tier free, no grace period, no days-left value.  The job's
    query never returns it on any day, and after any number of runs of the
    job the row is still in [user_subscriptions]. *)
Theorem open_ended_premium_is_never_cleaned tz now db us :
  us ∈ user_subscriptions db →
  us_tier us = "premium" → us_status us = "active" →
  us_plan_expiry_date us = None →
  (∀ us', us' ∈ user_subscriptions db →
          us_user_id us' = us_user_id us → us' = us) →
  fetchSubscriptionDetails tz now true
    {| data := Some (as_fetched us); error := None |} = free_no_grace
  ∧ (∀ today, eligible today us = false
              ∧ us_user_id us ∉ us_user_id <$> selected today db)
  ∧ (∀ db', cleanup_runs db db' → us ∈ user_subscriptions db').
Proof.
  intros Hin Ht Hs He Hone.
  assert (∀ today, eligible today us = false) as Hel.
  { intros today. unfold eligible. rewrite He. apply andb_false_r. }
  assert (∀ d today,
            us ∈ user_subscriptions d →
            (∀ us', us' ∈ user_subscriptions d →
                    us_user_id us' = us_user_id us → us' = us) →
            us_user_id us ∉ us_user_id <$> selected today d) as Hnot.
  { intros d today _ Hone' (us' & Hid & Hsel)%list_elem_of_fmap.
    apply list_elem_of_filter in Hsel as [Helig Hus'].
    rewrite (Hone' us' Hus' (eq_sym Hid)), Hel in Helig. done. }
  split_and!.
  - unfold fetchSubscriptionDetails, try_block, resolve, as_fetched.
    cbn. rewrite He. cbn. by case_bool_decide.
  - intros today. split; [done|by apply Hnot].
  - intros db' Hruns.
    induction Hruns as [d|today d res d' Hrun _ IH]; [done|].
    apply IH.
    + apply (unselected_row_survives today d res us Hrun Hin).
      by apply Hnot.
    + intros us' Hus'. apply Hone.
      by apply (subscriptions_only_shrink today d res).
Qed.

Lemma open_ended_premium_is_never_cleaned_witness :
  let tz := 19800000 in
  let now := Samples.day 20000 in
  let db := Samples.db_distinct in
  let us := Samples.open_ended in
  fetchSubscriptionDetails tz now true
    {| data := Some (as_fetched us); error := None |} = free_no_grace
  ∧ (∀ today, eligible today us = false
              ∧ us_user_id us ∉ us_user_id <$> selected today db)
  ∧ (∀ db', cleanup_runs db db' → us ∈ user_subscriptions db').
Proof.
  intros tz now db us.
  apply (open_ended_premium_is_never_cleaned tz now db us);
    [compute_done|reflexivity|reflexivity|reflexivity|].
  intros us' Hus' Hid.
  repeat (apply elem_of_cons in Hus' as [->|Hus']; [done||discriminate|]).
  by apply elem_of_nil in Hus'.
Defined.

(** ** Dependents before job openings *)


Lemma delete_ids_of_user_nil u rows : delete_ids_of_user [] u rows = rows.
Proof.
  apply filter_all, Forall_forall. intros r _ [Hin _].
  by apply elem_of_nil in Hin.
Qed.

Lemma reclaimer_dependents u t L db res :
  delete_excess_records_for_user u t L db res →
  follow_ups (db_after res) = follow_ups db
  ∧ job_opening_contacts (db_after res) = job_opening_contacts db.
Proof. intros [ranked _ _|_]; [|done]. by destruct t. Qed.

Lemma reclaimer_other_table u t t' L db res :
  delete_excess_records_for_user u t L db res → t ≠ t' →
  table t' (db_after res) = table t' db.
Proof.
  intros [ranked _ _|_] Ht; [|done]. by apply table_set_table_ne.
Qed.

(** Without ties the table after a call is the table without the user's rows
    numbered past the limit, in the one numbering there is. *)
Lemma reclaimer_table_without_ties u t (L : Z) db res ranked :
  NoDup (created_at <$> user_rows u (table t db)) →
  ranked_items (user_rows u (table t db)) ranked →
  delete_excess_records_for_user u t L db res →
  table t (db_after res)
  = delete_ids_of_user (excess_ids ranked L) u (table t db).
Proof.
  intros Hnd Hranked [ranked' Hgt Hranked'|Hle];
    unfold db_after; cbn [fst snd].
  - rewrite (ranked_items_unique _ ranked ranked' Hnd Hranked Hranked').
    apply table_delete_ranked_excess.
  - apply ranked_items_length in Hranked. unfold row_count in Hle.
    rewrite excess_ids_drop, drop_ge by lia.
    by rewrite delete_ids_of_user_nil.
Qed.

(** The three tables around job openings after the loop body, when the
    user's job openings have distinct creation timestamps: all three
    statements worked from the same set of excess ids. *)
Lemma cleanup_user_without_ties usr db res :
  let u := us_user_id usr in
  NoDup (created_at <$> user_rows u (job_openings db)) →
  cleanup_user usr db res →
  ∃ ranked,
    ranked_items (user_rows u (job_openings db)) ranked
    ∧ job_openings (db_after res)
      = delete_ids_of_user
          (excess_ids ranked free_tier_job_opening_limit) u (job_openings db)
    ∧ follow_ups (db_after res)
      = follow_ups
          (delete_follow_ups_of
             (excess_ids ranked free_tier_job_opening_limit) u db)
    ∧ job_opening_contacts (db_after res)
      = job_opening_contacts
          (delete_job_opening_contacts_of
             (excess_ids ranked free_tier_job_opening_limit) u db).
Proof.
  intros u0 Hnd Hrun. subst u0.
  destruct Hrun as [r1 r2 db3 n3 db4 n4 db5 n5 u db1 db2 Hr1 Hr2 H3 H4 H5].
  change (job_openings db1) with (job_openings db) in Hr2.
  change (us_user_id usr) with u in Hnd |- *.
  pose proof (ranked_items_unique _ r1 r2 Hnd Hr1 Hr2) as <-.
  pose proof (reclaimer_table_without_ties u JobOpenings _ db2 _ r1 Hnd Hr1 H3)
    as E3.
  pose proof (reclaimer_other_table u Contacts JobOpenings _ _ _ H4) as E4.
  pose proof (reclaimer_other_table u Companies JobOpenings _ _ _ H5) as E5.
  destruct (reclaimer_dependents _ _ _ _ _ H3) as [F3 L3].
  destruct (reclaimer_dependents _ _ _ _ _ H4) as [F4 L4].
  destruct (reclaimer_dependents _ _ _ _ _ H5) as [F5 L5].
  unfold db_after in *; cbn [fst snd table] in *.
  exists r1. split_and!; [done|..]; cbn.
  - by rewrite E5, E4 by done.
  - by rewrite F5, F4, F3.
  - by rewrite L5, L4, L3.
Qed.



(** One executor ordering for every window: what the loop body leaves in
    the three tables around job openings.  The job openings are not written
    between the three windows, so all three number the same rows. *)
Section RunCleanupUser.
Context (rank : list Entity → list Entity).
Hypothesis rank_ranked : ∀ rows, ranked_items rows (rank rows).



End RunCleanupUser.



(** ** The end-to-end scenario

    User 1, premium, expired ten days ago, with 40 companies, 20 contacts and
    35 job openings, each with a follow-up and a contact link: the run leaves
    25 companies, 20 contacts, 30 job openings with their 30 follow-ups and
    30 links, and no subscription row; the rows of users 2 and 3 are as
    before. *)
Example end_to_end :
  let db := Samples.db_distinct in
  let db' := db_after (run_daily_user_data_cleanup sort_by_created_at 20000 db) in
  us_user_id <$> selected 20000 db = [1%N]
  ∧ length <$> [companies (records_of 1 db'); contacts (records_of 1 db');
                job_openings (records_of 1 db')] = [25; 20; 30]%nat
  ∧ length (follow_ups (records_of 1 db')) = 30%nat
  ∧ length (job_opening_contacts (records_of 1 db')) = 30%nat
  ∧ user_subscriptions db' = [Samples.open_ended; Samples.in_grace]
  ∧ records_of 2 db' = records_of 2 db
  ∧ records_of 3 db' = records_of 3 db.
Proof. repeat split; compute_done. Qed.

(** * Further properties of the resolver *)

(** Either the record is premium and active with a valid expiry date, or it
    resolves to free without grace at every time. *)
Lemma resolve_cases data :
  (∃ sub t, data = Some sub ∧ tier sub = "premium" ∧ status sub = "active"
            ∧ plan_expiry_date sub = Some (DateAt t))
  ∨ (∀ tz now, resolve tz now data = free_no_grace).
Proof.
  destruct data as [sub|]; [|by right].
  destruct (decide (tier sub = "premium" ∧ status sub = "active"))
    as [[Ht Hs]|Hno].
  - destruct (plan_expiry_date sub) as [[|t]|] eqn:He.
    + right. intros tz now. unfold resolve.
      rewrite bool_decide_eq_true_2, He by done. reflexivity.
    + left. by exists sub, t.
    + right. intros tz now. unfold resolve.
      by rewrite bool_decide_eq_true_2, He.
  - right. intros tz now. unfold resolve. by rewrite bool_decide_eq_false_2.
Qed.

(** The hook either resolves the row it fetched, at every time, or
    publishes free without grace, at every time. *)
Lemma fetch_cases cu r :
  (cu = true ∧ (error r = None ∨ error r = Some "PGRST116")
   ∧ ∀ tz now, fetchSubscriptionDetails tz now cu r = resolve tz now (data r))
  ∨ ((cu = false ∨ ∃ code, error r = Some code ∧ code ≠ "PGRST116")
     ∧ ∀ tz now, fetchSubscriptionDetails tz now cu r = free_no_grace).
Proof.
  unfold fetchSubscriptionDetails, try_block.
  destruct cu; [|right; by split; [left|]].
  destruct (error r) as [code|] eqn:He; [|left; by split_and!; [|left|]].
  destruct (decide (code = "PGRST116")) as [->|Hne].
  - left. split_and!; [done|by right|done].
  - right. split; [right; by exists code|].
    intros tz now. by rewrite bool_decide_eq_true_2.
Qed.

Lemma local_day_mono tz a b : a ≤ b → local_day tz a ≤ local_day tz b.
Proof.
  intros. apply Z.div_le_mono; [unfold msPerDay; lia|lia].
Qed.

(** X1.  The hook grants the premium tier exactly when there is a signed-in
    user, the fetch did not fail (no error, or the "no rows" code), and the
    row is premium and active with a valid expiry date on a later calendar
    day than today. *)
Theorem premium_exactly_before_the_expiry_day tz now cu r :
  effectiveTierForLimits (fetchSubscriptionDetails tz now cu r) = premium ↔
  cu = true
  ∧ (error r = None ∨ error r = Some "PGRST116")
  ∧ ∃ sub t, data r = Some sub
             ∧ tier sub = "premium" ∧ status sub = "active"
             ∧ plan_expiry_date sub = Some (DateAt t)
             ∧ local_day tz now < local_day tz t.
Proof.
  destruct (fetch_cases cu r) as [(Hcu & Herr & Hf)|[Hbad Hf]]; rewrite Hf.
  - destruct (resolve_cases (data r))
      as [(sub & t & Hd & Ht & Hs & He)|Hfree].
    + rewrite Hd, (resolve_premium_active tz now sub t Ht Hs He). split.
      * intros Hp. split_and!; [done..|]. exists sub, t.
        split_and!; [done..|].
        repeat case_bool_decide; [done|discriminate..].
      * intros (_ & _ & sub' & t' & [= <-] & _ & _ & He' & Hlt).
        rewrite He in He'. injection He' as <-.
        by rewrite bool_decide_eq_true_2.
    + rewrite Hfree. split; [discriminate|].
      intros (_ & _ & sub & t & Hd & Ht & Hs & He & Hlt).
      specialize (Hfree tz now).
      rewrite Hd, (resolve_premium_active tz now sub t Ht Hs He) in Hfree.
      by rewrite bool_decide_eq_true_2 in Hfree.
  - split; [discriminate|]. intros (Hcu & Herr & _).
    destruct Hbad as [->|(code & Hc & Hne)]; [done|].
    rewrite Hc in Herr. by destruct Herr as [|[= ->]].
Qed.

(** What the hook can publish. *)
Lemma fetch_outcomes tz now cu r :
  let out := fetchSubscriptionDetails tz now cu r in
  out = free_no_grace
  ∨ out = {| effectiveTierForLimits := premium; isInGracePeriod := false;
             daysLeftInGracePeriod := None |}
  ∨ ∃ n, 0 ≤ n ≤ 7
         ∧ out = {| effectiveTierForLimits := free; isInGracePeriod := true;
                    daysLeftInGracePeriod := Some (Num n) |}.
Proof.
  intros out. subst out.
  destruct (fetch_cases cu r) as [(_ & _ & Hf)|[_ Hf]]; rewrite Hf;
    [|by left].
  destruct (resolve_cases (data r))
    as [(sub & t & Hd & Ht & Hs & He)|Hfree]; [|by left].
  rewrite Hd, (resolve_premium_active tz now sub t Ht Hs He).
  repeat case_bool_decide; [right; by left| |by left].
  right; right. exists (local_day tz t + 7 - local_day tz now). split; [lia|done].
Qed.

(** X2.  Whatever the hook publishes is coherent: a days-left value is
    present exactly when the grace period is reported active; it is then a
    whole number from 0 to 7, never NaN or negative, and the tier is free;
    the premium tier never comes with a grace period. *)
Theorem published_grace_is_coherent tz now cu r :
  let out := fetchSubscriptionDetails tz now cu r in
  (isInGracePeriod out = true ↔ daysLeftInGracePeriod out ≠ None)
  ∧ (isInGracePeriod out = true →
       effectiveTierForLimits out = free
       ∧ ∃ n, daysLeftInGracePeriod out = Some (Num n) ∧ 0 ≤ n ≤ 7)
  ∧ (effectiveTierForLimits out = premium → isInGracePeriod out = false).
Proof.
  intros out. subst out.
  destruct (fetch_outcomes tz now cu r) as [->|[->|(n & Hn & ->)]]; cbn.
  - split_and!; [split; done|done|done].
  - split_and!; [split; done|done|done].
  - split_and!; [split; done| |done]. intros _. split; [done|]. by exists n.
Qed.

(** X3.  The hook works at day granularity: two fetches that differ only in
    the time of day of the clock and of the expiry date publish the same
    values. *)
Theorem resolver_sees_only_calendar_days tz now now' cu r r' sub sub' t t' :
  error r = error r' →
  data r = Some sub → data r' = Some sub' →
  tier sub = tier sub' → status sub = status sub' →
  plan_expiry_date sub = Some (DateAt t) →
  plan_expiry_date sub' = Some (DateAt t') →
  local_day tz t = local_day tz t' → local_day tz now = local_day tz now' →
  fetchSubscriptionDetails tz now cu r = fetchSubscriptionDetails tz now' cu r'.
Proof.
  intros Herr Hd Hd' Ht Hs He He' Hday Hnow.
  assert (resolve tz now (data r) = resolve tz now' (data r')) as Hres.
  { rewrite Hd, Hd'.
    destruct (decide (tier sub = "premium" ∧ status sub = "active"))
      as [[Hp Ha]|Hno].
    - rewrite (resolve_premium_active tz now sub t Hp Ha He).
      rewrite (resolve_premium_active tz now' sub' t'); [|congruence..].
      by rewrite Hday, Hnow.
    - unfold resolve. rewrite !bool_decide_eq_false_2; [done|congruence|done]. }
  unfold fetchSubscriptionDetails, try_block. rewrite <-Herr, Hres.
  reflexivity.
Qed.

Lemma resolver_sees_only_calendar_days_witness :
  fetchSubscriptionDetails 3600000 (20000 * msPerDay) true
    {| data := Some {| tier := "premium"; status := "active";
                       plan_expiry_date := Some (DateAt (19995 * msPerDay)) |};
       error := None |}
  = fetchSubscriptionDetails 3600000 (20000 * msPerDay + 82799999) true
      {| data := Some {| tier := "premium"; status := "active";
                         plan_expiry_date :=
                           Some (DateAt (19995 * msPerDay + 82799999)) |};
         error := None |}.
Proof.
  eapply resolver_sees_only_calendar_days; reflexivity.
Defined.

(** X4.  For one fetched response the published state only decays as the
    clock advances: premium later means premium now; grace later means
    premium or grace now (a grace period that is over does not come back);
    and while the grace period lasts the days left go down by one per
    calendar day. *)
Theorem published_state_only_decays tz now now' cu r :
  now ≤ now' →
  let out := fetchSubscriptionDetails tz now cu r in
  let out' := fetchSubscriptionDetails tz now' cu r in
  (effectiveTierForLimits out' = premium → effectiveTierForLimits out = premium)
  ∧ (isInGracePeriod out' = true →
       effectiveTierForLimits out = premium ∨ isInGracePeriod out = true)
  ∧ (∀ n, isInGracePeriod out' = true →
          daysLeftInGracePeriod out = Some (Num n) →
          daysLeftInGracePeriod out' =
            Some (Num (n - (local_day tz now' - local_day tz now)))).
Proof.
  intros Hle out out'. subst out out'.
  pose proof (local_day_mono tz now now' Hle) as Hday.
  destruct (fetch_cases cu r) as [(_ & _ & Hf)|[_ Hf]]; rewrite !Hf;
    [|by cbn].
  destruct (resolve_cases (data r))
    as [(sub & t & Hd & Ht & Hs & He)|Hfree]; [|by rewrite !Hfree; cbn].
  rewrite Hd, !(resolve_premium_active tz _ sub t Ht Hs He).
  repeat case_bool_decide; cbn; split_and!;
    try done; try lia; try (by left); try (by right).
  intros n _ [= <-]. do 2 f_equal. lia.
Qed.

Lemma published_state_only_decays_witness :
  let r := {| data := Some {| tier := "premium"; status := "active";
                              plan_expiry_date :=
                                Some (DateAt (19995 * msPerDay)) |};
              error := None |} in
  let out := fetchSubscriptionDetails 0 (19997 * msPerDay) true r in
  let out' := fetchSubscriptionDetails 0 (20001 * msPerDay) true r in
  (effectiveTierForLimits out' = premium → effectiveTierForLimits out = premium)
  ∧ (isInGracePeriod out' = true →
       effectiveTierForLimits out = premium ∨ isInGracePeriod out = true)
  ∧ (∀ n, isInGracePeriod out' = true →
          daysLeftInGracePeriod out = Some (Num n) →
          daysLeftInGracePeriod out' =
            Some (Num (n - (local_day 0 (20001 * msPerDay)
                            - local_day 0 (19997 * msPerDay))))).
Proof.
  intros r.
  apply (published_state_only_decays 0 (19997 * msPerDay) (20001 * msPerDay)).
  unfold msPerDay. lia.
Defined.

(** X5.  The job takes a subscription row at the earliest on the last day
    on which the hook shows its grace period.  On a day on which the job's
    query selects a row, the hook, given that row in a browser at most a day
    ahead of or behind the database's zone, publishes the free tier, with no
    grace period or with a grace period of zero days left; it never shows
    premium or a grace period with days to go, whatever the row's status.
    When the expiry instant and the clock fall on the same calendar days for
    browser and database, the hook shows no grace period at all. *)
Theorem cleanup_waits_for_the_grace_period tz now cu err us :
  - msPerDay ≤ tz ≤ msPerDay →
  eligible (date_of now) us = true →
  let hook :=
    fetchSubscriptionDetails tz now cu
      {| data := Some (as_fetched us); error := err |} in
  (hook = free_no_grace
   ∨ hook = {| effectiveTierForLimits := free; isInGracePeriod := true;
               daysLeftInGracePeriod := Some (Num 0) |})
  ∧ (local_day tz now = date_of now →
     (∀ t, us_plan_expiry_date us = Some t → local_day tz t = date_of t) →
     hook = free_no_grace).
Proof.
  intros Htz (Ht & t & He & Hlate)%eligible_iff hook. subst hook.
  unfold grace_period_days in Hlate.
  destruct (fetch_cases cu {| data := Some (as_fetched us); error := err |})
    as [(_ & _ & Hf)|[_ Hf]]; rewrite Hf; [|by split; [left|]]. cbn [data].
  destruct (decide (us_status us = "active")) as [Hs|Hs].
  - rewrite (resolve_premium_active tz now (as_fetched us) t); [|done|done|];
      [|unfold as_fetched; cbn; by rewrite He].
    assert (local_day tz t + 7 ≤ local_day tz now) as Hlocal.
    { unfold local_day, date_of in *.
      pose proof (Z.div_mod (t + tz) msPerDay ltac:(done)).
      pose proof (Z.mod_pos_bound (t + tz) msPerDay ltac:(done)).
      pose proof (Z.div_mod (now + tz) msPerDay ltac:(done)).
      pose proof (Z.mod_pos_bound (now + tz) msPerDay ltac:(done)).
      pose proof (Z.div_mod t msPerDay ltac:(done)).
      pose proof (Z.mod_pos_bound t msPerDay ltac:(done)).
      pose proof (Z.div_mod now msPerDay ltac:(done)).
      pose proof (Z.mod_pos_bound now msPerDay ltac:(done)).
      unfold msPerDay in *. lia. }
    rewrite bool_decide_eq_false_2 by lia. split.
    + case_bool_decide; [right|by left].
      do 2 f_equal. f_equal. lia.
    + intros Hn Hexp. rewrite Hn, (Hexp t He).
      by rewrite bool_decide_eq_false_2 by lia.
  - unfold resolve. rewrite bool_decide_eq_false_2; [by split; [left|]|].
    by intros [_ ?].
Qed.

Lemma cleanup_waits_for_the_grace_period_witness :
  let tz := -25200000 in
  let now := Samples.day 20000 + 4000 in
  let us := {| us_user_id := 1; us_tier := "premium"; us_status := "active";
               us_plan_expiry_date := Some (Samples.day 19992 + 72000000) |} in
  let hook :=
    fetchSubscriptionDetails tz now true
      {| data := Some (as_fetched us); error := None |} in
  (hook = free_no_grace
   ∨ hook = {| effectiveTierForLimits := free; isInGracePeriod := true;
               daysLeftInGracePeriod := Some (Num 0) |})
  ∧ (local_day tz now = date_of now →
     (∀ t, us_plan_expiry_date us = Some t → local_day tz t = date_of t) →
     hook = free_no_grace).
Proof.
  intros tz now us.
  apply (cleanup_waits_for_the_grace_period tz now true None us);
    [unfold tz, msPerDay; lia|reflexivity].
Defined.

(** * The hook as a state machine *)

Lemma fetch_premium_has_record tz now r :
  effectiveTierForLimits (fetchSubscriptionDetails tz now true r) = premium →
  (∃ res, try_block tz now r = inr res)
  ∧ ∃ sub t, data r = Some sub ∧ tier sub = "premium" ∧ status sub = "active"
             ∧ plan_expiry_date sub = Some (DateAt t).
Proof.
  unfold fetchSubscriptionDetails.
  destruct (try_block tz now r) as [code|res] eqn:Htry; [discriminate|].
  intros Hp. split; [by eexists|].
  assert (res = resolve tz now (data r)) as ->.
  { unfold try_block in Htry. destruct (error r); [|congruence].
    case_bool_decide; congruence. }
  destruct (resolve_cases (data r)) as [(sub & t & Hd & H)|Hfree].
  - by exists sub, t.
  - by rewrite Hfree in Hp.
Qed.

(** X6.  In every state the hook can reach, by any interleaving of the auth
    callback, the [getUser] continuation, the effect and settling requests:
    a grace period is shown only together with the free tier and a days-left
    value from 0 to 7; without a grace period there is no days-left value;
    and the premium tier is shown only while the state holds a premium,
    active subscription with a valid expiry date. *)
Theorem hook_state_stays_coherent s :
  Hook.reachable s →
  (Hook.isInGracePeriod s = true →
     Hook.effectiveTierForLimits s = free
     ∧ ∃ n, Hook.daysLeftInGracePeriod s = Some (Num n) ∧ 0 ≤ n ≤ 7)
  ∧ (Hook.isInGracePeriod s = false → Hook.daysLeftInGracePeriod s = None)
  ∧ (Hook.effectiveTierForLimits s = premium →
       ∃ sub t, Hook.currentSubscription s = Some sub
                ∧ tier sub = "premium" ∧ status sub = "active"
                ∧ plan_expiry_date sub = Some (DateAt t)).
Proof.
  unfold Hook.reachable. revert s.
  apply rtc_ind_r; [by split_and!|].
  intros s s' Hrest Hstep IH.
  destruct IH as (Hgrace & Hnone & Hprem).
  destruct Hstep as [[u|] s|[u|] s|s|tz now r s].
  - by split_and!.
  - by split_and!.
  - by split_and!.
  - cbn. split_and!; [|done|done]. intros Hg.
    destruct (Hgrace Hg) as [_ Hdays]. by split.
  - unfold Hook.effect. destruct (Hook.currentUser s); cbn; by split_and!.
  - unfold Hook.settle.
    cbn [Hook.isInGracePeriod Hook.effectiveTierForLimits
         Hook.daysLeftInGracePeriod Hook.currentSubscription].
    destruct (fetch_outcomes tz now true r) as [Hout|[Hout|(n & Hn & Hout)]];
      cbn zeta in Hout.
    + rewrite Hout. cbn. by split_and!.
    + split_and!; [by rewrite Hout|by rewrite Hout|].
      intros Hp.
      destruct (fetch_premium_has_record tz now r Hp)
        as [[res ->] (sub & t & Hd & H)].
      by exists sub, t.
    + rewrite Hout. cbn. split_and!; [|done|done].
      intros _. split; [done|]. by exists n.
Qed.

Lemma hook_state_stays_coherent_witness :
  let r := {| data := Some {| tier := "premium"; status := "active";
                              plan_expiry_date :=
                                Some (DateAt (19995 * msPerDay)) |};
              error := None |} in
  let s := Hook.getUser_then None
             (Hook.settle 3600000 (19997 * msPerDay) r
                (Hook.effect
                   (Hook.onAuthStateChange (Some "user-1") Hook.initial))) in
  (Hook.isInGracePeriod s = true →
     Hook.effectiveTierForLimits s = free
     ∧ ∃ n, Hook.daysLeftInGracePeriod s = Some (Num n) ∧ 0 ≤ n ≤ 7)
  ∧ (Hook.isInGracePeriod s = false → Hook.daysLeftInGracePeriod s = None)
  ∧ (Hook.effectiveTierForLimits s = premium →
       ∃ sub t, Hook.currentSubscription s = Some sub
                ∧ tier sub = "premium" ∧ status sub = "active"
                ∧ plan_expiry_date sub = Some (DateAt t)).
Proof.
  intros r s. apply (hook_state_stays_coherent s).
  unfold Hook.reachable, s.
  eapply rtc_l; [apply (Hook.step_onAuthStateChange (Some "user-1"))|].
  eapply rtc_l; [apply Hook.step_effect|].
  eapply rtc_l; [apply (Hook.step_settle 3600000 (19997 * msPerDay) r)|].
  eapply rtc_l; [apply (Hook.step_getUser_then None)|].
  apply rtc_refl.
Defined.

(** * Further properties of the cleanup job *)

Lemma table_records_of v t db :
  table t (records_of v db) = user_rows v (table t db).
Proof. by destruct t. Qed.

Lemma row_count_records_of u v t db db' :
  records_of v db' = records_of v db → v = u →
  row_count u t db' = row_count u t db.
Proof.
  intros Heq ->. unfold row_count.
  by rewrite <-!table_records_of, Heq.
Qed.

(** A call of the reclaimer with a limit that is a quota leaves the user
    within it. *)
Lemma reclaimer_within_limit u t (L : Z) db res :
  0 ≤ L →
  delete_excess_records_for_user u t L db res →
  row_count u t (db_after res) ≤ L.
Proof.
  intros HL [ranked Hgt Hranked|Hle]; unfold db_after; cbn [fst snd]; [|lia].
  unfold row_count. rewrite table_delete_ranked_excess.
  pose proof (delete_leaves_at_most u L _ _ Hranked). lia.
Qed.

Lemma reclaimer_row_count_other_table u v t t' L db res :
  delete_excess_records_for_user u t L db res → t ≠ t' →
  row_count v t' (db_after res) = row_count v t' db.
Proof.
  intros Hrun Ht. unfold row_count.
  by rewrite (reclaimer_other_table u t t' L db res Hrun Ht).
Qed.

(** The loop body leaves its user within all three quotas. *)
Lemma cleanup_user_within_quota usr db res t :
  cleanup_user usr db res →
  row_count (us_user_id usr) t (db_after res) ≤ free_tier_limit t.
Proof.
  intros Hrun.
  destruct Hrun as [r1 r2 db3 n3 db4 n4 db5 n5 u db1 db2 _ _ H3 H4 H5].
  unfold db_after; cbn [fst snd].
  assert (row_count (us_user_id usr) t (delete_subscription u db5)
          = row_count u t db5) as -> by done.
  assert (0 ≤ 30 ∧ 0 ≤ 25) as [H30 H25] by lia.
  pose proof (reclaimer_within_limit u JobOpenings 30 db2 _ H30 H3) as B3.
  pose proof (reclaimer_within_limit u Contacts 25 db3 _ H25 H4) as B4.
  pose proof (reclaimer_within_limit u Companies 25 db4 _ H25 H5) as B5.
  pose proof (λ t' Ht, reclaimer_row_count_other_table u u _ t' _ _ _ H4 Ht)
    as E4.
  pose proof (λ t' Ht, reclaimer_row_count_other_table u u _ t' _ _ _ H5 Ht)
    as E5.
  unfold db_after in *; cbn [fst snd] in *.
  destruct t; cbn [free_tier_limit].
  - done.
  - by rewrite E5.
  - by rewrite E5, E4.
Qed.

Lemma cleanup_user_keeps_quota usr db res v :
  cleanup_user usr db res →
  (∀ t, row_count v t db ≤ free_tier_limit t) →
  ∀ t, row_count v t (db_after res) ≤ free_tier_limit t.
Proof.
  intros Hrun Hquota t.
  destruct (decide (v = us_user_id usr)) as [->|Hv].
  - by apply (cleanup_user_within_quota usr db).
  - rewrite (row_count_records_of v v t db (db_after res)); [done| |done].
    by apply (cleanup_user_other_users usr).
Qed.

Lemma cleanup_loop_keeps_quota usrs db res v :
  cleanup_loop usrs db res →
  (∀ t, row_count v t db ≤ free_tier_limit t) →
  ∀ t, row_count v t (db_after res) ≤ free_tier_limit t.
Proof.
  induction 1 as [db|usr rest db db1 n1 db2 n2 Huser Hrest IH]; [done|].
  intros Hquota. apply IH.
  exact (cleanup_user_keeps_quota usr db _ v Huser Hquota).
Qed.

Lemma cleanup_loop_within_quota usrs db res v :
  cleanup_loop usrs db res → v ∈ us_user_id <$> usrs →
  ∀ t, row_count v t (db_after res) ≤ free_tier_limit t.
Proof.
  induction 1 as [db|usr rest db db1 n1 db2 n2 Huser Hrest IH].
  - by intros ?%elem_of_nil.
  - rewrite fmap_cons, elem_of_cons. intros [->|Hv]; [|by apply IH].
    apply (cleanup_loop_keeps_quota rest db1 _ _ Hrest).
    intros t. exact (cleanup_user_within_quota usr db _ t Huser).
Qed.

(** X7.  After a run of the job every user it selected has at most 25
    companies, 25 contacts and 30 job openings, and no subscription row,
    whatever the ties among timestamps and in whatever order the users were
    taken. *)
Theorem selected_users_end_within_quota today db res u :
  daily_user_data_cleanup today db res →
  u ∈ us_user_id <$> selected today db →
  (∀ t, row_count u t (db_after res) ≤ free_tier_limit t)
  ∧ (∀ us, us ∈ user_subscriptions (db_after res) → us_user_id us ≠ u).
Proof.
  intros Hrun Hu. split.
  - destruct Hrun as [usrs db' n Hperm Hloop]. rewrite <-Hperm in Hu.
    exact (cleanup_loop_within_quota usrs db _ u Hloop Hu).
  - intros us Hus Heq. subst u.
    rewrite (daily_user_subscriptions today db res Hrun) in Hus.
    by apply list_elem_of_filter in Hus as [Hnot _].
Qed.

Lemma selected_users_end_within_quota_witness :
  let db := Samples.db_tied in
  let res := run_daily_user_data_cleanup sort_by_created_at 20000 db in
  (∀ t, row_count 1%N t (db_after res) ≤ free_tier_limit t)
  ∧ (∀ us, us ∈ user_subscriptions (db_after res) → us_user_id us ≠ 1%N).
Proof.
  intros db res.
  apply (selected_users_end_within_quota 20000 db res 1%N).
  - apply run_daily_user_data_cleanup_sound, sort_by_created_at_ranked.
  - compute_done.
Defined.

(** ** The job only takes rows out *)

Lemma rows_removed_refl db : rows_removed db db.
Proof. by split_and!. Qed.

Lemma rows_removed_trans db1 db2 db3 :
  rows_removed db1 db2 → rows_removed db2 db3 → rows_removed db1 db3.
Proof.
  intros (S1 & T1 & F1 & L1) (S2 & T2 & F2 & L2).
  split_and!.
  - by trans (user_subscriptions db2).
  - intros t. by trans (table t db2).
  - by trans (follow_ups db2).
  - by trans (job_opening_contacts db2).
Qed.

Lemma rows_removed_delete_follow_ups_of ids u db :
  rows_removed db (delete_follow_ups_of ids u db).
Proof. split_and!; [done|done|apply sublist_filter|done]. Qed.

Lemma rows_removed_delete_job_opening_contacts_of ids u db :
  rows_removed db (delete_job_opening_contacts_of ids u db).
Proof. split_and!; [done|done|done|apply sublist_filter]. Qed.

Lemma rows_removed_delete_subscription u db :
  rows_removed db (delete_subscription u db).
Proof. split_and!; [apply sublist_filter|done|done|done]. Qed.

Lemma rows_removed_reclaimer u t L db res :
  delete_excess_records_for_user u t L db res →
  rows_removed db (db_after res).
Proof.
  intros [ranked _ _|_]; [|apply rows_removed_refl].
  unfold db_after; cbn [fst snd].
  split_and!; [by destruct t| |by destruct t|by destruct t].
  intros t'. destruct (decide (t = t')) as [<-|Hne].
  - rewrite table_delete_ranked_excess. apply sublist_filter.
  - unfold delete_ranked_excess. by rewrite table_set_table_ne.
Qed.

Lemma rows_removed_cleanup_user usr db res :
  cleanup_user usr db res → rows_removed db (db_after res).
Proof.
  intros Hrun.
  destruct Hrun as [r1 r2 db3 n3 db4 n4 db5 n5 u db1 db2 _ _ H3 H4 H5].
  unfold db_after; cbn [fst snd].
  pose proof (rows_removed_reclaimer _ _ _ _ _ H3) as R3.
  pose proof (rows_removed_reclaimer _ _ _ _ _ H4) as R4.
  pose proof (rows_removed_reclaimer _ _ _ _ _ H5) as R5.
  unfold db_after in R3, R4, R5; cbn [fst snd] in R3, R4, R5.
  eapply rows_removed_trans; [|apply rows_removed_delete_subscription].
  eapply rows_removed_trans; [|exact R5].
  eapply rows_removed_trans; [|exact R4].
  eapply rows_removed_trans; [|exact R3].
  eapply rows_removed_trans;
    [|apply rows_removed_delete_job_opening_contacts_of].
  apply rows_removed_delete_follow_ups_of.
Qed.

Lemma rows_removed_cleanup_loop usrs db res :
  cleanup_loop usrs db res → rows_removed db (db_after res).
Proof.
  induction 1 as [db|usr rest db db1 n1 db2 n2 Huser Hrest IH].
  - apply rows_removed_refl.
  - eapply rows_removed_trans; [|exact IH].
    exact (rows_removed_cleanup_user usr db _ Huser).
Qed.

(** X8.  A run of the job only takes rows out: afterwards every table lists
    rows it listed before, unchanged and in the same order, so a table whose
    [id] column was a key still has it as a key. *)
Theorem cleanup_only_removes_rows today db res :
  daily_user_data_cleanup today db res →
  rows_removed db (db_after res)
  ∧ ∀ t, NoDup (id <$> table t db) → NoDup (id <$> table t (db_after res)).
Proof.
  intros [usrs db' n _ Hloop].
  pose proof (rows_removed_cleanup_loop usrs db _ Hloop) as Hrem.
  split; [exact Hrem|].
  intros t Hkey. destruct Hrem as (_ & Htab & _).
  eapply sublist_NoDup; [exact Hkey|]. apply fmap_sublist, Htab.
Qed.

Lemma cleanup_only_removes_rows_witness :
  let db := Samples.db_distinct in
  let res := run_daily_user_data_cleanup sort_by_created_at 20000 db in
  rows_removed db (db_after res)
  ∧ ∀ t, NoDup (id <$> table t db) → NoDup (id <$> table t (db_after res)).
Proof.
  intros db res. apply (cleanup_only_removes_rows 20000 db res).
  apply run_daily_user_data_cleanup_sound, sort_by_created_at_ranked.
Defined.

(** ** A selected user who is within quota *)

Lemma excess_ids_none ranked (L : Z) :
  Z.of_nat (length ranked) ≤ L → excess_ids ranked L = [].
Proof. intros Hle. by rewrite excess_ids_drop, drop_ge by lia. Qed.

Lemma delete_follow_ups_of_nil u db : delete_follow_ups_of [] u db = db.
Proof.
  unfold delete_follow_ups_of. rewrite filter_all; [by destruct db|].
  apply Forall_forall. intros f _ [Hin _]. by apply elem_of_nil in Hin.
Qed.

Lemma delete_job_opening_contacts_of_nil u db :
  delete_job_opening_contacts_of [] u db = db.
Proof.
  unfold delete_job_opening_contacts_of.
  rewrite filter_all; [by destruct db|].
  apply Forall_forall. intros c _ [Hin _]. by apply elem_of_nil in Hin.
Qed.

Lemma reclaimer_under_limit u t L db res :
  delete_excess_records_for_user u t L db res →
  row_count u t db ≤ L → db_after res = db.
Proof. intros [ranked Hgt _|_] Hle; [lia|done]. Qed.

(** For a user within the three quotas the loop body deletes the
    subscription row and nothing else. *)
Lemma cleanup_user_under_quota usr db res :
  cleanup_user usr db res →
  (∀ t, row_count (us_user_id usr) t db ≤ free_tier_limit t) →
  db_after res = delete_subscription (us_user_id usr) db.
Proof.
  intros Hrun Hquota.
  destruct Hrun as [r1 r2 db3 n3 db4 n4 db5 n5 u db1 db2 Hr1 Hr2 H3 H4 H5].
  unfold db_after; cbn [fst snd]. fold u in Hquota.
  assert (db1 = db) as E1.
  { unfold db1. rewrite excess_ids_none; [apply delete_follow_ups_of_nil|].
    rewrite (ranked_items_length _ _ Hr1). apply (Hquota JobOpenings). }
  rewrite E1 in Hr2.
  assert (db2 = db) as E2.
  { unfold db2. rewrite E1, excess_ids_none;
      [apply delete_job_opening_contacts_of_nil|].
    rewrite (ranked_items_length _ _ Hr2). apply (Hquota JobOpenings). }
  rewrite E2 in H3.
  pose proof (reclaimer_under_limit _ _ _ _ _ H3 (Hquota JobOpenings)) as E3.
  unfold db_after in E3; cbn [fst snd] in E3. subst db3.
  pose proof (reclaimer_under_limit _ _ _ _ _ H4 (Hquota Contacts)) as E4.
  unfold db_after in E4; cbn [fst snd] in E4. subst db4.
  pose proof (reclaimer_under_limit _ _ _ _ _ H5 (Hquota Companies)) as E5.
  unfold db_after in E5; cbn [fst snd] in E5. by subst db5.
Qed.

Lemma cleanup_user_keeps_records_under_quota usr db res v :
  cleanup_user usr db res →
  (∀ t, row_count v t db ≤ free_tier_limit t) →
  set_user_subscriptions [] (records_of v (db_after res))
  = set_user_subscriptions [] (records_of v db).
Proof.
  intros Hrun Hquota.
  destruct (decide (v = us_user_id usr)) as [->|Hv].
  - by rewrite (cleanup_user_under_quota usr db res Hrun Hquota).
  - by rewrite (cleanup_user_other_users usr db res v Hrun Hv).
Qed.

Lemma cleanup_loop_keeps_records_under_quota usrs db res v :
  cleanup_loop usrs db res →
  (∀ t, row_count v t db ≤ free_tier_limit t) →
  set_user_subscriptions [] (records_of v (db_after res))
  = set_user_subscriptions [] (records_of v db).
Proof.
  induction 1 as [db|usr rest db db1 n1 db2 n2 Huser Hrest IH]; [done|].
  intros Hquota.
  pose proof (cleanup_user_keeps_records_under_quota usr db _ v Huser Hquota)
    as E1.
  pose proof (cleanup_user_keeps_quota usr db _ v Huser Hquota) as Q1.
  unfold db_after in *; cbn [fst snd] in *.
  by rewrite IH.
Qed.

(** X9.  A user the job selects who is within all three quotas loses the
    subscription row and nothing else: the user's companies, contacts, job
    openings, follow-ups and contact links are the same lists after the run
    as before. *)
Theorem user_within_quota_loses_only_the_subscription today db res u :
  daily_user_data_cleanup today db res →
  u ∈ us_user_id <$> selected today db →
  (∀ t, row_count u t db ≤ free_tier_limit t) →
  records_of u (db_after res) = set_user_subscriptions [] (records_of u db).
Proof.
  intros Hrun Hu Hquota.
  assert (user_subscriptions (records_of u (db_after res)) = []) as Hsubs.
  { cbn. apply filter_none, Forall_forall. intros us Hus Heq.
    rewrite (daily_user_subscriptions today db res Hrun) in Hus.
    apply list_elem_of_filter in Hus as [Hnot _]. by rewrite Heq in Hnot. }
  destruct Hrun as [usrs db' n Hperm Hloop].
  rewrite <-(cleanup_loop_keeps_records_under_quota usrs db _ u Hloop Hquota).
  unfold db_after in *; cbn [fst snd] in *.
  destruct (records_of u db') as [s c1 c2 j f l] eqn:E. cbn in Hsubs.
  by rewrite Hsubs.
Qed.

Lemma user_within_quota_loses_only_the_subscription_witness :
  let db :=
    set_user_subscriptions
      [{| us_user_id := 2; us_tier := "premium"; us_status := "cancelled";
          us_plan_expiry_date := Some (Samples.day 19000) |}]
      Samples.db_distinct in
  let res := run_daily_user_data_cleanup sort_by_created_at 20000 db in
  records_of 2%N (db_after res) = set_user_subscriptions [] (records_of 2%N db).
Proof.
  intros db res.
  apply (user_within_quota_loses_only_the_subscription 20000 db res 2%N).
  - apply run_daily_user_data_cleanup_sound, sort_by_created_at_ranked.
  - compute_done.
  - intros t. destruct t; compute_done.
Defined.

(** ** Dependents keep their job openings *)

Lemma filter_sublist_mono {A} (P : A → Prop) `{!∀ x, Decision (P x)}
    (l1 l2 : list A) :
  l1 `sublist_of` l2 → filter P l1 `sublist_of` filter P l2.
Proof.
  induction 1 as [|x l1 l2 _ IH|x l1 l2 _ IH]; [done|..];
    rewrite ?filter_cons; case_decide;
    try (by constructor); try done.
Qed.

Lemma no_ties_rows_removed (rows rows' : list Entity) u :
  rows' `sublist_of` rows →
  NoDup (created_at <$> user_rows u rows) →
  NoDup (created_at <$> user_rows u rows').
Proof.
  intros Hsub Hnd. eapply sublist_NoDup; [exact Hnd|].
  by apply fmap_sublist, filter_sublist_mono.
Qed.

(** Without ties among the user's job openings the loop body takes out a
    dependent exactly when it takes out its job opening, so one that has its
    job opening before has it afterwards. *)
Lemma cleanup_user_keeps_parents usr db res :
  NoDup (created_at <$> user_rows (us_user_id usr) (job_openings db)) →
  dependents_have_parents db →
  cleanup_user usr db res →
  dependents_have_parents (db_after res).
Proof.
  intros Hnd [Hfus Hlinks] Hrun.
  destruct (cleanup_user_without_ties usr db res Hnd Hrun)
    as (ranked & _ & Ejobs & Efus & Elinks).
  set (X := excess_ids ranked free_tier_job_opening_limit) in *.
  split.
  - intros f Hf. rewrite Efus in Hf. unfold delete_follow_ups_of in Hf.
    cbn in Hf. apply list_elem_of_filter in Hf as [Hkeep Hf].
    destruct (Hfus f Hf) as (j & Hj & Hid & Hu).
    exists j. split_and!; [|done|done].
    rewrite Ejobs. apply list_elem_of_filter. split; [|done].
    by rewrite Hid, Hu.
  - intros c Hc. rewrite Elinks in Hc.
    unfold delete_job_opening_contacts_of in Hc.
    cbn in Hc. apply list_elem_of_filter in Hc as [Hkeep Hc].
    destruct (Hlinks c Hc) as (j & Hj & Hid & Hu).
    exists j. split_and!; [|done|done].
    rewrite Ejobs. apply list_elem_of_filter. split; [|done].
    by rewrite Hid, Hu.
Qed.

Lemma cleanup_loop_keeps_parents usrs db res :
  (∀ usr, usr ∈ usrs →
          NoDup (created_at <$> user_rows (us_user_id usr) (job_openings db))) →
  dependents_have_parents db →
  cleanup_loop usrs db res →
  dependents_have_parents (db_after res).
Proof.
  intros Hnd Hdep Hloop. revert Hnd Hdep.
  induction Hloop as [db|usr rest db db1 n1 db2 n2 Huser Hrest IH];
    intros Hnd Hdep; [done|].
  apply IH.
  - intros usr' Hin.
    destruct (rows_removed_cleanup_user usr db _ Huser) as (_ & Htab & _).
    apply (no_ties_rows_removed (job_openings db)); [apply (Htab JobOpenings)|].
    apply Hnd. by right.
  - apply (cleanup_user_keeps_parents usr db ((), db1, n1)); [|done|done].
    apply Hnd. by left.
Qed.

(** X10.  When no selected user has two job openings created at the same
    instant, a run of the job keeps referential integrity: if before the run
    every follow-up and every contact link points at a job opening of its
    own user, so does every one left after the run. *)
Theorem cleanup_keeps_dependents_attached today db res :
  daily_user_data_cleanup today db res →
  (∀ usr, usr ∈ selected today db →
          NoDup (created_at <$> user_rows (us_user_id usr) (job_openings db))) →
  dependents_have_parents db →
  dependents_have_parents (db_after res).
Proof.
  intros [usrs db' n Hperm Hloop] Hnd Hdep.
  apply (cleanup_loop_keeps_parents usrs db ((), db', n)); [|done|done].
  intros usr Hin. apply Hnd. by rewrite <-Hperm.
Qed.

(** The same condition in a form that can be evaluated. *)
Lemma dependents_have_parents_by_search db :
  Forall (λ f, Exists (λ j, id j = fu_job_opening_id f
                            ∧ user_id j = fu_user_id f) (job_openings db))
         (follow_ups db) →
  Forall (λ c, Exists (λ j, id j = joc_job_opening_id c
                            ∧ user_id j = joc_user_id c) (job_openings db))
         (job_opening_contacts db) →
  dependents_have_parents db.
Proof.
  rewrite !Forall_forall. intros Hf Hc. split.
  - intros f Hin. apply Hf, Exists_exists in Hin as (j & ? & ? & ?).
    by exists j.
  - intros c Hin. apply Hc, Exists_exists in Hin as (j & ? & ? & ?).
    by exists j.
Qed.

Lemma cleanup_keeps_dependents_attached_witness :
  let db := Samples.db_distinct in
  let res := run_daily_user_data_cleanup sort_by_created_at 20000 db in
  dependents_have_parents (db_after res).
Proof.
  intros db res.
  apply (cleanup_keeps_dependents_attached 20000 db res).
  - apply run_daily_user_data_cleanup_sound, sort_by_created_at_ranked.
  - intros usr Hin.
    assert (usr = Samples.lapsed) as ->.
    { revert Hin. unfold db. vm_compute selected.
      by intros ->%list_elem_of_singleton. }
    compute_done.
  - apply dependents_have_parents_by_search; compute_done.
Defined.

(** ** The outcome of a run without ties *)

Lemma run_reclaimer_db u t (L : Z) db :
  db_after (run_delete_excess_records_for_user sort_by_created_at u t L db)
  = delete_ranked_excess
      (sort_by_created_at (user_rows u (table t db))) u t L db.
Proof.
  unfold run_delete_excess_records_for_user. case_decide as Hgt; [done|].
  unfold db_after; cbn [fst snd]. unfold delete_ranked_excess.
  rewrite excess_ids_none, delete_ids_of_user_nil, set_table_same; [done|].
  rewrite (ranked_items_length _ _ (sort_by_created_at_ranked _)).
  unfold row_count in Hgt. lia.
Qed.

Lemma reclaimer_matches_run u t (L : Z) db res :
  NoDup (created_at <$> user_rows u (table t db)) →
  delete_excess_records_for_user u t L db res →
  db_after res
  = db_after (run_delete_excess_records_for_user sort_by_created_at u t L db).
Proof.
  intros Hnd [ranked Hgt Hranked|Hle];
    unfold run_delete_excess_records_for_user, db_after; cbn [fst snd].
  - rewrite decide_True by done. cbn [fst snd].
    by rewrite (ranked_items_unique _ ranked _ Hnd Hranked
                  (sort_by_created_at_ranked _)).
  - by rewrite decide_False.
Qed.

Lemma run_cleanup_user_db usr db :
  db_after (run_cleanup_user sort_by_created_at usr db)
  = cleaned_for (us_user_id usr) db.
Proof.
  unfold run_cleanup_user. unfold db_after at 1. cbn [fst snd].
  rewrite !run_reclaimer_db. reflexivity.
Qed.

Lemma no_ties_rows_removed_db u db db' :
  rows_removed db db' → no_ties u db → no_ties u db'.
Proof.
  intros (_ & Htab & _) Hnd t.
  by apply (no_ties_rows_removed (table t db)).
Qed.

(** Without ties for its user the loop body has one outcome. *)
Lemma cleanup_user_matches_run usr db res :
  no_ties (us_user_id usr) db →
  cleanup_user usr db res →
  db_after res = cleaned_for (us_user_id usr) db.
Proof.
  intros Hnd Hrun. rewrite <-run_cleanup_user_db.
  destruct Hrun as [r1 r2 db3 n3 db4 n4 db5 n5 u db1 db2 Hr1 Hr2 H3 H4 H5].
  fold u in Hnd.
  pose proof (ranked_items_unique _ r1 _ (Hnd JobOpenings) Hr1
                (sort_by_created_at_ranked _)) as E1.
  pose proof (no_ties_rows_removed_db u db db1
                (rows_removed_delete_follow_ups_of _ _ _) Hnd) as Hnd1.
  pose proof (ranked_items_unique _ r2 _ (Hnd1 JobOpenings) Hr2
                (sort_by_created_at_ranked _)) as E2.
  pose proof (no_ties_rows_removed_db u db1 db2
                (rows_removed_delete_job_opening_contacts_of _ _ _) Hnd1)
    as Hnd2.
  pose proof (reclaimer_matches_run u JobOpenings _ db2 _
                (Hnd2 JobOpenings) H3) as E3.
  pose proof (no_ties_rows_removed_db u db2 _
                (rows_removed_reclaimer _ _ _ _ _ H3) Hnd2) as Hnd3.
  change (db_after ((), db3, n3)) with db3 in E3, Hnd3.
  pose proof (reclaimer_matches_run u Contacts _ db3 _
                (Hnd3 Contacts) H4) as E4.
  pose proof (no_ties_rows_removed_db u db3 _
                (rows_removed_reclaimer _ _ _ _ _ H4) Hnd3) as Hnd4.
  change (db_after ((), db4, n4)) with db4 in E4, Hnd4.
  pose proof (reclaimer_matches_run u Companies _ db4 _
                (Hnd4 Companies) H5) as E5.
  change (db_after ((), db5, n5)) with db5 in E5.
  cbn [table] in E1, E2. subst db1 db2. subst. reflexivity.
Qed.

Lemma filter_comm {A} (P Q : A → Prop)
    `{!∀ x, Decision (P x), !∀ x, Decision (Q x)} (l : list A) :
  filter P (filter Q l) = filter Q (filter P l).
Proof. rewrite !list_filter_filter. apply list_filter_iff. intros x. tauto. Qed.

Lemma db_ext (d d' : DB) :
  user_subscriptions d = user_subscriptions d' →
  (∀ t, table t d = table t d') →
  follow_ups d = follow_ups d' →
  job_opening_contacts d = job_opening_contacts d' →
  d = d'.
Proof.
  intros Hs Ht Hf Hl.
  pose proof (Ht Companies) as H1. pose proof (Ht Contacts) as H2.
  pose proof (Ht JobOpenings) as H3.
  destruct d, d'. cbn in *. congruence.
Qed.

Lemma table_cleaned_for u t db :
  table t (cleaned_for u db)
  = delete_ids_of_user (sorted_excess_ids u t db) u (table t db).
Proof. by destruct t. Qed.

Lemma follow_ups_cleaned_for u db :
  follow_ups (cleaned_for u db)
  = filter (λ f, ¬ (fu_job_opening_id f ∈ sorted_excess_ids u JobOpenings db
                    ∧ fu_user_id f = u))
           (follow_ups db).
Proof. reflexivity. Qed.

Lemma job_opening_contacts_cleaned_for u db :
  job_opening_contacts (cleaned_for u db)
  = filter (λ c, ¬ (joc_job_opening_id c ∈ sorted_excess_ids u JobOpenings db
                    ∧ joc_user_id c = u))
           (job_opening_contacts db).
Proof. reflexivity. Qed.

(** The rows of another user do not change what the body finds in excess. *)
Lemma sorted_excess_ids_cleaned_for u v t db :
  u ≠ v → sorted_excess_ids u t (cleaned_for v db) = sorted_excess_ids u t db.
Proof.
  intros Huv. unfold sorted_excess_ids at 1. rewrite table_cleaned_for.
  unfold sorted_excess_ids at 1. by rewrite delete_other_users.
Qed.

(** The loop bodies of two users commute. *)
Lemma cleaned_for_comm u v db :
  cleaned_for u (cleaned_for v db) = cleaned_for v (cleaned_for u db).
Proof.
  destruct (decide (u = v)) as [->|Huv]; [done|].
  assert (v ≠ u) as Hvu by done.
  apply db_ext.
  - cbn. apply filter_comm.
  - intros t. rewrite !table_cleaned_for.
    rewrite !sorted_excess_ids_cleaned_for by done.
    apply filter_comm.
  - rewrite !follow_ups_cleaned_for.
    rewrite !sorted_excess_ids_cleaned_for by done. apply filter_comm.
  - rewrite !job_opening_contacts_cleaned_for.
    rewrite !sorted_excess_ids_cleaned_for by done. apply filter_comm.
Qed.

Lemma run_cleanup_loop_cons usr rest db :
  db_after (run_cleanup_loop sort_by_created_at (usr :: rest) db)
  = db_after (run_cleanup_loop sort_by_created_at rest
                (cleaned_for (us_user_id usr) db)).
Proof. by rewrite <-run_cleanup_user_db. Qed.

(** The order in which the loop takes the users does not matter. *)
Lemma run_cleanup_loop_permutation usrs usrs' :
  usrs ≡ₚ usrs' →
  ∀ db, db_after (run_cleanup_loop sort_by_created_at usrs db)
        = db_after (run_cleanup_loop sort_by_created_at usrs' db).
Proof.
  induction 1 as [|x l l' _ IH|x y l|l1 l2 l3 _ IH1 _ IH2]; intros db.
  - done.
  - by rewrite !run_cleanup_loop_cons, IH.
  - by rewrite !run_cleanup_loop_cons, cleaned_for_comm.
  - by rewrite IH1, IH2.
Qed.

Lemma cleanup_loop_matches_run usrs db res :
  (∀ usr, usr ∈ usrs → no_ties (us_user_id usr) db) →
  cleanup_loop usrs db res →
  db_after res = db_after (run_cleanup_loop sort_by_created_at usrs db).
Proof.
  intros Hnd Hloop. revert Hnd.
  induction Hloop as [db|usr rest db db1 n1 db2 n2 Huser Hrest IH];
    intros Hnd; [done|].
  rewrite run_cleanup_loop_cons.
  assert (no_ties (us_user_id usr) db) as Hu by (apply Hnd; by left).
  pose proof (cleanup_user_matches_run usr db _ Hu Huser) as E.
  change (db_after ((), db1, n1)) with db1 in E. rewrite <-E.
  apply IH. intros usr' Hin.
  apply (no_ties_rows_removed_db _ db);
    [exact (rows_removed_cleanup_user usr db _ Huser)|].
  apply Hnd. by right.
Qed.

(** X11.  When no selected user has two rows of one table created at the
    same instant, the database a run of the job ends in is determined by the
    database it starts from and the date: it depends neither on the order in
    which the loop query returns the users nor on the executor's orderings,
    and it is the one the reference run computes. *)
Theorem cleanup_outcome_is_determined today db res1 res2 :
  (∀ usr, usr ∈ selected today db → no_ties (us_user_id usr) db) →
  daily_user_data_cleanup today db res1 →
  daily_user_data_cleanup today db res2 →
  db_after res1 = db_after res2
  ∧ db_after res1
    = db_after (run_daily_user_data_cleanup sort_by_created_at today db).
Proof.
  intros Hnd Hrun1 Hrun2.
  assert (∀ res, daily_user_data_cleanup today db res →
                 db_after res
                 = db_after (run_cleanup_loop sort_by_created_at
                               (selected today db) db)) as Hone.
  { intros res [usrs db' n Hperm Hloop].
    rewrite <-(run_cleanup_loop_permutation usrs _ Hperm).
    refine (cleanup_loop_matches_run usrs db ((), db', n) _ Hloop).
    intros usr Hin. apply Hnd. by rewrite <-Hperm. }
  split; [by rewrite (Hone res1), (Hone res2)|].
  by rewrite (Hone res1).
Qed.

Lemma cleanup_outcome_is_determined_witness :
  let db := Samples.db_distinct in
  let r := run_cleanup_loop sort_by_created_at
             (reverse (selected 20010 db)) db in
  let res1 : Result unit := ((), db_after r, notices r ++ [Finished]) in
  let res2 := run_daily_user_data_cleanup sort_by_created_at 20010 db in
  length (selected 20010 db) = 2%nat
  ∧ db_after res1 = db_after res2
  ∧ db_after res1
    = db_after (run_daily_user_data_cleanup sort_by_created_at 20010 db).
Proof.
  intros db r res1 res2. split; [reflexivity|].
  apply (cleanup_outcome_is_determined 20010 db res1 res2).
  - intros usr Hin t.
    assert (usr = Samples.lapsed ∨ usr = Samples.in_grace) as [->| ->].
    { revert Hin. unfold db. vm_compute selected.
      intros [->|[->|[]%elem_of_nil]%elem_of_cons]%elem_of_cons; auto. }
    + destruct t; compute_done.
    + destruct t; compute_done.
  - apply (daily_run 20010 db (reverse (selected 20010 db)));
      [apply reverse_Permutation|].
    rewrite <-result_eta.
    apply run_cleanup_loop_sound, sort_by_created_at_ranked.
  - apply run_daily_user_data_cleanup_sound, sort_by_created_at_ranked.
Defined.

(** * Further properties of the reclaimer *)

Lemma reclaimer_db u t L db res :
  delete_excess_records_for_user u t L db res →
  db_after res = set_table t (table t (db_after res)) db.
Proof.
  intros [ranked _ _|_]; unfold db_after; cbn [fst snd].
  - unfold delete_ranked_excess. rewrite table_set_table. done.
  - by rewrite set_table_same.
Qed.

(** X12.  A call of the reclaimer for user [u] and table [t] changes nothing
    but rows of [u] in [t]: it only takes rows out, every other table is
    the same list as before (so dependents of a deleted job opening are not
    touched), and every other user's records are the same. *)
Theorem reclaimer_touches_one_user_in_one_table u t (L : Z) db res :
  delete_excess_records_for_user u t L db res →
  rows_removed db (db_after res)
  ∧ user_subscriptions (db_after res) = user_subscriptions db
  ∧ follow_ups (db_after res) = follow_ups db
  ∧ job_opening_contacts (db_after res) = job_opening_contacts db
  ∧ (∀ t', t' ≠ t → table t' (db_after res) = table t' db)
  ∧ (∀ v, v ≠ u → records_of v (db_after res) = records_of v db).
Proof.
  intros Hrun.
  destruct (reclaimer_dependents u t L db res Hrun) as [Hf Hl].
  split_and!; [|by apply (reclaimer_user_subscriptions u t L)|done|done| |].
  - by apply (rows_removed_reclaimer u t L).
  - intros t' Ht'. by apply (reclaimer_other_table u t t' L).
  - intros v Hv. by apply (reclaimer_other_users u v Hv t L).
Qed.

Lemma reclaimer_touches_one_user_in_one_table_witness :
  let db := Samples.db_distinct in
  let res := run_delete_excess_records_for_user sort_by_created_at
               1%N JobOpenings 30 db in
  rows_removed db (db_after res)
  ∧ user_subscriptions (db_after res) = user_subscriptions db
  ∧ follow_ups (db_after res) = follow_ups db
  ∧ job_opening_contacts (db_after res) = job_opening_contacts db
  ∧ (∀ t', t' ≠ JobOpenings → table t' (db_after res) = table t' db)
  ∧ (∀ v, v ≠ 1%N → records_of v (db_after res) = records_of v db).
Proof.
  intros db res.
  apply (reclaimer_touches_one_user_in_one_table 1%N JobOpenings 30 db res).
  apply run_delete_excess_records_for_user_sound, sort_by_created_at_ranked.
Defined.

Lemma drop_take_drop {A} (l : list A) (k k' : nat) :
  (k ≤ k')%nat → drop k l = drop k (take k' l) ++ drop k' l.
Proof.
  revert k k'. induction l as [|x l IH]; intros k k' Hle.
  - by rewrite take_nil, !drop_nil.
  - destruct k' as [|k']; [by replace k with 0%nat by lia|].
    destruct k as [|k]; cbn.
    + by rewrite take_drop.
    + apply IH. lia.
Qed.

Lemma Sorted_take (ranked : list Entity) k :
  Sorted older ranked → Sorted older (take k ranked).
Proof.
  intros Hs. apply Sorted_StronglySorted in Hs; [|apply _].
  rewrite <-(take_drop k ranked) in Hs.
  apply StronglySorted_app_1_l in Hs.
  by apply StronglySorted_Sorted.
Qed.

Lemma set_table_set_table t rows rows' db :
  set_table t rows (set_table t rows' db) = set_table t rows db.
Proof. by destruct t. Qed.

(** X13.  Reclaiming in two steps is reclaiming once: for limits
    [0 ≤ L ≤ L'], a table with key [id] and no ties among the user's rows,
    a call with limit [L'] followed by a call with limit [L] leaves the
    database a single call with limit [L] leaves. *)
Theorem reclaiming_in_two_steps u t (L L' : Z) db res1 res2 res :
  0 ≤ L ≤ L' →
  NoDup (id <$> table t db) →
  NoDup (created_at <$> user_rows u (table t db)) →
  delete_excess_records_for_user u t L' db res1 →
  delete_excess_records_for_user u t L (db_after res1) res2 →
  delete_excess_records_for_user u t L db res →
  db_after res2 = db_after res.
Proof.
  intros HL Hkey Hnd Hrun1 Hrun2 Hrun.
  set (ranked := sort_by_created_at (user_rows u (table t db))).
  pose proof (sort_by_created_at_ranked (user_rows u (table t db)))
    as Hranked. fold ranked in Hranked.
  pose proof (reclaimer_table_without_ties u t L' db res1 ranked
                Hnd Hranked Hrun1) as E1.
  pose proof (reclaimer_table_without_ties u t L db res ranked
                Hnd Hranked Hrun) as E.
  assert (ranked_items (user_rows u (table t (db_after res1)))
            (take (Z.to_nat L') ranked)) as Hranked1.
  { split; [|apply Sorted_take, Hranked].
    rewrite E1. symmetry. by apply delete_keeps_first. }
  assert (NoDup (created_at <$> user_rows u (table t (db_after res1))))
    as Hnd1.
  { apply (no_ties_rows_removed (table t db)); [|done].
    rewrite E1. apply sublist_filter. }
  pose proof (reclaimer_table_without_ties u t L (db_after res1) res2 _
                Hnd1 Hranked1 Hrun2) as E2.
  rewrite (reclaimer_db u t L _ res2 Hrun2), (reclaimer_db u t L db res Hrun).
  rewrite E2, E, E1.
  rewrite (reclaimer_db u t L' db res1 Hrun1).
  rewrite set_table_set_table. f_equal. unfold delete_ids_of_user.
  rewrite list_filter_filter. apply list_filter_iff. intros r.
  rewrite !excess_ids_drop.
  rewrite (drop_take_drop ranked (Z.to_nat L) (Z.to_nat L')) by lia.
  rewrite fmap_app, elem_of_app. tauto.
Qed.

Lemma reclaiming_in_two_steps_witness :
  let db := Samples.db_distinct in
  let res1 := run_delete_excess_records_for_user sort_by_created_at
                1%N Companies 30 db in
  let res2 := run_delete_excess_records_for_user sort_by_created_at
                1%N Companies 25 (db_after res1) in
  let res := run_delete_excess_records_for_user sort_by_created_at
               1%N Companies 25 db in
  db_after res2 = db_after res.
Proof.
  intros db res1 res2 res.
  apply (reclaiming_in_two_steps 1%N Companies 25 30 db res1 res2 res);
    [lia|compute_done|compute_done|..];
    apply run_delete_excess_records_for_user_sound, sort_by_created_at_ranked.
Defined.
